(** * Notification de-duplication, notice store and pagination of the admin console

    A shallow embedding of
    - [src/utils/notify.ts]   (window based de-duplication of toast messages),
    - the notice store         (visible notices, auto-dismiss timers, overflow),
    - [Coupons.vue] and [UserLoginLogs.vue] (page jump and page change),
    followed by the properties proved about them. *)

From Stdlib Require Import ZArith NArith QArith Qround Lia String Ascii.
From stdpp Require Import gmap list sorting.

#[local] Open Scope Z_scope.

(** ** JavaScript strings *)

(** A JavaScript string is a sequence of UTF-16 code units. *)
Definition jsstring := list N.

(** The code units of an ASCII literal. *)
Fixpoint str (s : string) : jsstring :=
  match s with
  | EmptyString => []
  | String a s' => N_of_ascii a :: str s'
  end.

(** Strict equality [===] on strings. *)
Definition str_eqb (a b : jsstring) : bool := bool_decide (a = b).

(** ECMAScript WhiteSpace and LineTerminator code units: what
    [String.prototype.trim] strips and what the class escape [\s] matches. *)
Definition isSpace (c : N) : bool :=
  ((0x09 <=? c) && (c <=? 0x0D) || (c =? 0x20) || (c =? 0xA0) || (c =? 0x1680)
   || (0x2000 <=? c) && (c <=? 0x200A) || (c =? 0x2028) || (c =? 0x2029)
   || (c =? 0x202F) || (c =? 0x205F) || (c =? 0x3000) || (c =? 0xFEFF))%N.

Fixpoint dropWhile (p : N -> bool) (s : jsstring) : jsstring :=
  match s with
  | [] => []
  | c :: s' => if p c then dropWhile p s' else s
  end.

Definition trimStart (s : jsstring) : jsstring := dropWhile isSpace s.
Definition trimEnd (s : jsstring) : jsstring := rev (dropWhile isSpace (rev s)).

(** [String.prototype.trim]. *)
Definition trim (s : jsstring) : jsstring := trimEnd (trimStart s).

(** Truthiness of a string: the empty string is the only falsy one. *)
Definition truthy (s : jsstring) : bool :=
  match s with [] => false | _ => true end.

Fixpoint startsWith (s p : jsstring) : bool :=
  match p, s with
  | [], _ => true
  | _ :: _, [] => false
  | a :: p', b :: s' => (a =? b)%N && startsWith s' p'
  end.

(** [s.includes(t)]: [t] occurs in [s] as a contiguous run of code units. *)
Fixpoint includes (s t : jsstring) : bool :=
  startsWith s t ||
  match s with
  | [] => false
  | _ :: s' => includes s' t
  end.

(** ** The regular expressions of the normalizer

    The two patterns of [simplifyMessage] use literal characters, character
    classes, concatenation, alternation and a greedy star over the class [\s].
    [exec] is the backtracking matcher of ECMAScript in continuation passing
    style: alternatives are tried left to right, a star first takes as many
    code units as it can and gives them back one at a time. *)

Inductive regex :=
| Empty
| Chr (c : N)
| Cls (p : N -> bool)
| Seq (r1 r2 : regex)
| Alt (r1 r2 : regex)
| StarCls (p : N -> bool).

(** Canonicalize of the [i] flag (no [u] flag): a code unit is compared through
    its upper-case form, and a non-ASCII code unit never folds onto an ASCII
    one. Only the ASCII letters fold towards the characters of the patterns
    below; the ideographs and the separators have no case. *)
Definition canonicalize (c : N) : N :=
  if ((0x61 <=? c) && (c <=? 0x7A))%N then (c - 0x20)%N else c.

Definition chr_matches (ignoreCase : bool) (c x : N) : bool :=
  if ignoreCase then (canonicalize c =? canonicalize x)%N else (c =? x)%N.

Section Exec.
Context {A : Type}.
Variable ignoreCase : bool.

Fixpoint star_loop (p : N -> bool) (k : jsstring -> option A) (s : jsstring)
  : option A :=
  match s with
  | c :: s' =>
      if p c then
        match star_loop p k s' with
        | Some r => Some r
        | None => k s
        end
      else k s
  | [] => k s
  end.

Fixpoint exec (r : regex) (s : jsstring) (k : jsstring -> option A) : option A :=
  match r with
  | Empty => k s
  | Chr c =>
      match s with
      | x :: s' => if chr_matches ignoreCase c x then k s' else None
      | [] => None
      end
  | Cls p =>
      match s with
      | x :: s' => if p x then k s' else None
      | [] => None
      end
  | Seq r1 r2 => exec r1 s (fun s' => exec r2 s' k)
  | Alt r1 r2 =>
      match exec r1 s k with
      | Some res => Some res
      | None => exec r2 s k
      end
  | StarCls p => star_loop p k s
  end.
End Exec.

(** [value.replace(/^r/, '')]: the pattern is anchored at the start and is not
    global, so the only candidate match starts at index 0; what it consumed
    is deleted, and the string is returned as it is when there is no match. *)
Definition replaceAnchored (ignoreCase : bool) (r : regex) (s : jsstring) : jsstring :=
  match exec ignoreCase r s Some with
  | Some rest => rest
  | None => s
  end.

(** [value.replace(/[...]/g, '')] for a pattern that is one character class:
    every code unit of the class is deleted. *)
Fixpoint replaceAllCls (p : N -> bool) (s : jsstring) : jsstring :=
  match s with
  | [] => []
  | c :: s' => if p c then replaceAllCls p s' else c :: replaceAllCls p s'
  end.

Definition lit (w : jsstring) : regex := foldr (fun c r => Seq (Chr c) r) Empty w.

Fixpoint alts (rs : list regex) : regex :=
  match rs with
  | [] => Cls (fun _ => false)
  | [r] => r
  | r :: rs' => Alt r (alts rs')
  end.

(** The failure prefixes, in the order of the alternation:
    操作失败 請求失敗 请求失败 提交失败 保存失败 删除失败 更新失败 创建失败 上傳失敗 上传失败
    followed by the two English ones. *)
Definition failureWords : list jsstring :=
  [ [0x64CD; 0x4F5C; 0x5931; 0x8D25]; [0x8ACB; 0x6C42; 0x5931; 0x6557];
    [0x8BF7; 0x6C42; 0x5931; 0x8D25]; [0x63D0; 0x4EA4; 0x5931; 0x8D25];
    [0x4FDD; 0x5B58; 0x5931; 0x8D25]; [0x5220; 0x9664; 0x5931; 0x8D25];
    [0x66F4; 0x65B0; 0x5931; 0x8D25]; [0x521B; 0x5EFA; 0x5931; 0x8D25];
    [0x4E0A; 0x50B3; 0x5931; 0x6557]; [0x4E0A; 0x4F20; 0x5931; 0x8D25] ]%N
  ++ [ str "operation failed"; str "request failed" ].

(** The class [[:：\-]]. *)
Definition isSeparator (c : N) : bool :=
  ((c =? 0x3A) || (c =? 0xFF1A) || (c =? 0x2D))%N.

(** [/^(w1|...|w12)\s*[:：\-]\s*/i], without the anchor. *)
Definition failurePrefix : regex :=
  Seq (alts (lit <$> failureWords))
      (Seq (StarCls isSpace) (Seq (Cls isSeparator) (StarCls isSpace))).

(** The ASCII members of the deleted class, as they are listed in it. *)
Definition asciiPunct : jsstring :=
  str "`~!@#$%^&*()_+-=[]{};':" ++ [0x22; 0x5C]%N ++ str "|,.<>/?".

(** Its other members: ，。！？；：、“”‘’（）【】《》·…— *)
Definition widePunct : jsstring :=
  [0xFF0C; 0x3002; 0xFF01; 0xFF1F; 0xFF1B; 0xFF1A; 0x3001; 0x201C; 0x201D;
   0x2018; 0x2019; 0xFF08; 0xFF09; 0x3010; 0x3011; 0x300A; 0x300B; 0xB7;
   0x2026; 0x2014]%N.

(** The class of the second pattern: [\s] and the punctuation above. *)
Definition isRemovable (c : N) : bool :=
  isSpace c || existsb (N.eqb c) (asciiPunct ++ widePunct).

(** ** Built-ins taken from the host

    [String.prototype.toLowerCase] follows the Unicode case tables, and the
    text of a fallback message comes from the i18n catalogue. *)
Class Host := {
  toLowerCase : jsstring -> jsstring;
  i18n_t : string -> jsstring
}.

Definition isAsciiLetter (c : N) : bool :=
  ((0x41 <=? c) && (c <=? 0x5A) || (0x61 <=? c) && (c <=? 0x7A))%N.

(** Lower-casing of the ASCII letters, the host used for concrete runs. *)
Definition asciiLower (c : N) : N :=
  if ((0x41 <=? c) && (c <=? 0x5A))%N then (c + 0x20)%N else c.

Definition asciiHost : Host :=
  {| toLowerCase := map asciiLower;
     i18n_t := fun key => str key |}.

Inductive NoticeType := error | success | info.

#[global] Instance NoticeType_eq_dec : EqDecision NoticeType.
Proof. solve_decision. Defined.

(** ** The notice store *)
Module NoticeStore.

Record NoticeItem := {
  id : Z;
  message : jsstring;
  type : NoticeType
}.

(** An active timer of [window]: its handle, the time it is due, and the
    notice its callback [() => remove(id)] closes over. *)
Record Timeout := {
  handle : Z;
  fireAt : Z;
  noticeId : Z
}.

#[global] Instance NoticeItem_eq_dec : EqDecision NoticeItem.
Proof. solve_decision. Defined.
#[global] Instance Timeout_eq_dec : EqDecision Timeout.
Proof. solve_decision. Defined.

(** The state behind [useNoticeStore]: the three variables of the store and
    the timers it has registered with [window.setTimeout]. *)
Record Store := {
  items : list NoticeItem;
  timerMap : gmap Z Z;
  sequence : Z;
  timeouts : list Timeout;
  nextHandle : Z
}.

Definition initial : Store :=
  {| items := []; timerMap := ∅; sequence := 0; timeouts := []; nextHandle := 1 |}.

(** [window.setTimeout(() => remove(id), delay)] called at time [now]. *)
Definition setTimeout (now delay nid : Z) (st : Store) : Z * Store :=
  let h := nextHandle st in
  (h, {| items := items st; timerMap := timerMap st; sequence := sequence st;
         timeouts := timeouts st ++ [{| handle := h; fireAt := now + delay; noticeId := nid |}];
         nextHandle := h + 1 |}).

(** [window.clearTimeout(h)]. *)
Definition clearTimeout (h : Z) (st : Store) : Store :=
  {| items := items st; timerMap := timerMap st; sequence := sequence st;
     timeouts := filter (fun t => handle t ≠ h) (timeouts st);
     nextHandle := nextHandle st |}.

Definition remove (i : Z) (st : Store) : Store :=
  let st :=
    match timerMap st !! i with
    | Some timeoutId =>
        let st := clearTimeout timeoutId st in
        {| items := items st; timerMap := delete i (timerMap st);
           sequence := sequence st; timeouts := timeouts st;
           nextHandle := nextHandle st |}
    | None => st
    end in
  {| items := filter (fun item => id item ≠ i) (items st);
     timerMap := timerMap st; sequence := sequence st;
     timeouts := timeouts st; nextHandle := nextHandle st |}.

Section WithHost.
Context `{Host}.

Definition simplifyNoticeMessage (input : jsstring) : jsstring :=
  let value := trim (if truthy input then input else []) in
  if negb (truthy value) then []
  else
    let value := replaceAnchored true failurePrefix value in
    replaceAllCls isRemovable (toLowerCase value).

(** The callback of [items.value.some] in [hasSimilarVisibleNotice]. *)
Definition similarTo (kind : NoticeType) (current : jsstring) (item : NoticeItem) : bool :=
  if negb (bool_decide (type item = kind)) then false
  else
    let existing := simplifyNoticeMessage (message item) in
    if negb (truthy existing) then false
    else str_eqb existing current || includes existing current || includes current existing.

Definition hasSimilarVisibleNotice (kind : NoticeType) (msg : jsstring) (st : Store) : bool :=
  let current := simplifyNoticeMessage msg in
  if negb (truthy current) then false
  else existsb (similarTo kind current) (items st).

(** [show(msg, kind, duration)] called at time [now]; [None] is [undefined]. *)
Definition show (msg : jsstring) (kind : NoticeType) (duration : Z) (now : Z)
    (st : Store) : option Z * Store :=
  let message := trim msg in
  if negb (truthy message) then (None, st)
  else if hasSimilarVisibleNotice kind message st then (None, st)
  else
    let i := sequence st + 1 in
    let st :=
      {| items := items st ++ [{| id := i; message := message; type := kind |}];
         timerMap := timerMap st; sequence := i;
         timeouts := timeouts st; nextHandle := nextHandle st |} in
    let st :=
      if 0 <? duration then
        let '(timeoutId, st) := setTimeout now duration i st in
        {| items := items st; timerMap := <[i := timeoutId]> (timerMap st);
           sequence := sequence st; timeouts := timeouts st;
           nextHandle := nextHandle st |}
      else st in
    let st :=
      if (5 <? length (items st))%nat then
        let overflow := take (length (items st) - 5) (items st) in
        foldl (fun st item => remove (id item) st) st overflow
      else st in
    (Some i, st).

End WithHost.

Definition clear (st : Store) : Store :=
  match items st with
  | first :: _ => remove (id first) st
  | [] => st
  end.

Definition clearAll (st : Store) : Store :=
  let st :=
    foldl (fun st item =>
             match timerMap st !! id item with
             | Some timeoutId => clearTimeout timeoutId st
             | None => st
             end) st (items st) in
  {| items := []; timerMap := ∅; sequence := sequence st;
     timeouts := timeouts st; nextHandle := nextHandle st |}.

(** A due timer fires: it leaves the list of active timers and its callback
    runs. *)
Definition fire (t : Timeout) (st : Store) : Store :=
  if bool_decide (t ∈ timeouts st) then
    remove (noticeId t)
      {| items := items st; timerMap := timerMap st; sequence := sequence st;
         timeouts := filter (fun t' => handle t' ≠ handle t) (timeouts st);
         nextHandle := nextHandle st |}
  else st.

(** The timers due at [now] fire before the next call runs. *)
Definition runTimers (now : Z) (st : Store) : Store :=
  foldl (fun st t => fire t st) st (filter (fun t => fireAt t <= now) (timeouts st)).

Definition message_of (st : Store) : jsstring :=
  match items st with first :: _ => message first | [] => [] end.
Definition visible (st : Store) : bool :=
  (0 <? length (items st))%nat.

End NoticeStore.

(** ** [src/utils/notify.ts] *)
Module Notify.
Import NoticeStore.

Definition dedupeWindowMs : Z := 1500.

(** The module level variables [lastMessage], [lastNormalized], [lastType]
    and [lastAt]; [None] is the initial [''] of [lastType]. *)
Record Dedupe := {
  lastMessage : jsstring;
  lastNormalized : jsstring;
  lastType : option NoticeType;
  lastAt : Z
}.

Definition initial : Dedupe :=
  {| lastMessage := []; lastNormalized := []; lastType := None; lastAt := 0 |}.

(** What a call of [pushNotice] did with the store. *)
Inductive Outcome :=
| Skipped
| Shown (result : option Z).

Section WithHost.
Context `{Host}.

Definition simplifyMessage (input : jsstring) : jsstring :=
  let value := trim input in
  if negb (truthy value) then []
  else
    let value := replaceAnchored true failurePrefix value in
    replaceAllCls isRemovable (toLowerCase value).

(** [shouldSkip(type, content)] with [Date.now()] returning [now]. *)
Definition shouldSkip (type : NoticeType) (content : jsstring) (now : Z)
    (d : Dedupe) : bool * Dedupe :=
  let normalized := trim content in
  if negb (truthy normalized) then (false, d)
  else
    let normalizedCore := simplifyMessage normalized in
    let withinWindow := now - lastAt d <=? dedupeWindowMs in
    let sameType := bool_decide (lastType d = Some type) in
    let duplicatedExact :=
      sameType && str_eqb (lastMessage d) normalized && withinWindow in
    let duplicatedNormalized :=
      sameType && truthy normalizedCore
      && str_eqb (lastNormalized d) normalizedCore && withinWindow in
    let duplicatedSimilar :=
      sameType && truthy normalizedCore && truthy (lastNormalized d)
      && withinWindow
      && (includes normalizedCore (lastNormalized d)
          || includes (lastNormalized d) normalizedCore) in
    let duplicated := duplicatedExact || duplicatedNormalized || duplicatedSimilar in
    (duplicated,
     {| lastMessage := normalized; lastNormalized := normalizedCore;
        lastType := Some type; lastAt := now |}).

(** [pushNotice(message, type, fallbackKey)]; [None] is an omitted message.
    [store.show] is called with its default duration. No step of the body
    throws here, so the enclosing [try]/[catch] does not show. *)
Definition pushNotice (message : option jsstring) (type : NoticeType)
    (fallbackKey : string) (now : Z) (w : Dedupe * Store)
    : Outcome * (Dedupe * Store) :=
  let '(d, store) := w in
  let fallback := i18n_t fallbackKey in
  let content :=
    match message with
    | Some m => if truthy m && truthy (trim m) then m else fallback
    | None => fallback
    end in
  let '(skip, d) := shouldSkip type content now d in
  if skip then (Skipped, (d, store))
  else
    let '(r, store) := show content type 6000 now store in
    (Shown r, (d, store)).

Definition notifyError (message : option jsstring) :=
  pushNotice message error "common.api.requestFailed".
Definition notifySuccess (message : option jsstring) :=
  pushNotice message success "admin.common.operationSuccess".
Definition notifyInfo (message : option jsstring) :=
  pushNotice message info "admin.common.notice".

(** The notifier selected by a notice type. *)
Definition notify (type : NoticeType) (message : option jsstring) :=
  match type with
  | error => notifyError message
  | success => notifySuccess message
  | info => notifyInfo message
  end.

(** A call that happens at [now]: the timers that are due have run. *)
Definition notifyAt (now : Z) (type : NoticeType) (message : jsstring)
    (w : Dedupe * Store) : Outcome * (Dedupe * Store) :=
  notify type (Some message) now (w.1, runTimers now w.2).

End WithHost.
End Notify.

(** ** Numbers of the pagination code

    [Number(input)], [Math.floor], [Math.max], [Math.min] and the comparisons
    only ever see a parsed value, its floor and the integer page counters, so
    a finite number is kept as a rational; no arithmetic that rounds occurs. *)
Inductive JSNumber :=
| NaN
| NegInf
| PosInf
| Fin (q : Q).

Definition ofZ (z : Z) : JSNumber := Fin (inject_Z z).

Definition isNaN (n : JSNumber) : bool :=
  match n with NaN => true | _ => false end.

Definition Math_floor (n : JSNumber) : JSNumber :=
  match n with
  | Fin q => ofZ (Qfloor q)
  | other => other
  end.

(** [a < b]; a comparison with [NaN] is false. *)
Definition num_ltb (a b : JSNumber) : bool :=
  match a, b with
  | NaN, _ | _, NaN => false
  | _, NegInf => false
  | NegInf, _ => true
  | PosInf, _ => false
  | _, PosInf => true
  | Fin p, Fin q => negb (Qle_bool q p)
  end.

(** [a === b] on numbers. *)
Definition num_eqb (a b : JSNumber) : bool :=
  match a, b with
  | NegInf, NegInf | PosInf, PosInf => true
  | Fin p, Fin q => Qeq_bool p q
  | _, _ => false
  end.

Definition Math_max (a b : JSNumber) : JSNumber :=
  if isNaN a || isNaN b then NaN else if num_ltb a b then b else a.

Definition Math_min (a b : JSNumber) : JSNumber :=
  if isNaN a || isNaN b then NaN else if num_ltb b a then b else a.

(** [Number(s)] applied to a string is the host's StringToNumber. *)
Class NumberHost := Number : jsstring -> JSNumber.

(** The [pagination] object of a list view, as the API returns it. *)
Record Pagination := {
  page : Z;
  page_size : Z;
  total : Z;
  total_page : Z
}.

(** In both views the only effect of [changePage] and [jumpToPage] is the call
    of the view's fetch function; the result below is the page it is called
    with, [None] when the function returns without fetching. *)
Module Coupons.
Section WithNumber.
Context `{NumberHost}.

Definition changePage (pagination : Pagination) (page : JSNumber) : option JSNumber :=
  if num_ltb page (ofZ 1) || num_ltb (ofZ (total_page pagination)) page then None
  else Some page (* fetchCoupons(page) *).

Definition jumpToPage (pagination : Pagination) (jumpPage : jsstring) : option JSNumber :=
  if negb (truthy jumpPage) then None
  else
    let raw := Number jumpPage in
    if isNaN raw then None
    else
      let target :=
        Math_min (Math_max (Math_floor raw) (ofZ 1)) (ofZ (total_page pagination)) in
      if num_eqb target (ofZ (page pagination)) then None
      else changePage pagination target.
End WithNumber.
End Coupons.

Module UserLoginLogs.
Section WithNumber.
Context `{NumberHost}.

Definition changePage (pagination : Pagination) (page : JSNumber) : option JSNumber :=
  if num_ltb page (ofZ 1) || num_ltb (ofZ (total_page pagination)) page then None
  else Some page (* fetchLogs(page) *).

Definition jumpToPage (pagination : Pagination) (jumpPage : jsstring) : option JSNumber :=
  if negb (truthy jumpPage) then None
  else
    let raw := Number jumpPage in
    if isNaN raw then None
    else
      let target :=
        Math_min (Math_max (Math_floor raw) (ofZ 1)) (ofZ (total_page pagination)) in
      if num_eqb target (ofZ (page pagination)) then None
      else changePage pagination target.
End WithNumber.
End UserLoginLogs.

(** A host that reads plain runs of ASCII digits, for concrete runs. *)
Fixpoint digitsValue (acc : Z) (s : jsstring) : option Z :=
  match s with
  | [] => Some acc
  | c :: s' =>
      if ((0x30 <=? c) && (c <=? 0x39))%N
      then digitsValue (10 * acc + Z.of_N (c - 0x30)) s'
      else None
  end.

Definition digitsHost : NumberHost :=
  fun s => match s with
           | [] => ofZ 0
           | _ => match digitsValue 0 s with Some z => ofZ z | None => NaN end
           end.

(** ** The normalizer, read as a pipeline

    The steps in the order the specification lists them: trim, strip one
    failure prefix with its separator, lower-case, delete the removable
    characters. *)

(** [s] without the leading word [w], compared without regard to case. *)
Fixpoint afterWord (w s : jsstring) : option jsstring :=
  match w, s with
  | [], _ => Some s
  | _ :: _, [] => None
  | c :: w', x :: s' =>
      if (canonicalize c =? canonicalize x)%N then afterWord w' s' else None
  end.

(** Optional white space, one separator, optional white space. *)
Definition afterSeparator (s : jsstring) : option jsstring :=
  match dropWhile isSpace s with
  | c :: s' => if isSeparator c then Some (dropWhile isSpace s') else None
  | [] => None
  end.

Fixpoint firstSome {A B : Type} (f : A -> option B) (l : list A) : option B :=
  match l with
  | [] => None
  | a :: l' => match f a with Some b => Some b | None => firstSome f l' end
  end.

Definition stripFailurePrefix (value : jsstring) : jsstring :=
  match firstSome (fun w => afterWord w value ≫= afterSeparator) failureWords with
  | Some rest => rest
  | None => value
  end.

Definition simplifySpec `{Host} (s : jsstring) : jsstring :=
  match trim s with
  | [] => []
  | value => List.filter (fun c => negb (isRemovable c))
               (toLowerCase (stripFailurePrefix value))
  end.

(** ** The normalizer, as the specification words it

    The failure prefixes, the separators and the deleted punctuation are
    written down as text and read as UTF-8, where the patterns above hold
    code units; letters are compared without regard to case by a test of
    their own. *)

(** The code units of a literal whose characters lie in the Basic
    Multilingual Plane: one, two and three byte sequences of UTF-8. *)
Fixpoint utf8_go (pending : nat) (acc : N) (bytes : list N) : jsstring :=
  match bytes with
  | [] => []
  | b :: rest =>
      if (b <? 0x80)%N then b :: utf8_go 0 0 rest
      else if (b <? 0xC0)%N then
        let acc' := (acc * 64 + (b - 0x80))%N in
        match pending with
        | 1%nat => acc' :: utf8_go 0 0 rest
        | S p => utf8_go p acc' rest
        | O => utf8_go 0 0 rest
        end
      else if (b <? 0xE0)%N then utf8_go 1 (b - 0xC0) rest
      else utf8_go 2 (b - 0xE0) rest
  end.

Definition text (s : string) : jsstring := utf8_go 0 0 (str s).

Definition listedPrefixes : list jsstring :=
  text <$> [ "操作失败"; "請求失敗"; "请求失败"; "提交失败"; "保存失败"; "删除失败";
             "更新失败"; "创建失败"; "上傳失敗"; "上传失败";
             "operation failed"; "request failed" ]%string.

(** The colon, the full-width colon and the dash. *)
Definition listedSeparators : jsstring := text ":：-".

(** The ASCII and the CJK punctuation that is deleted; the double quote and
    the backslash are given by their code. *)
Definition listedPunctuation : jsstring :=
  text "`~!@#$%^&*()_+-=[]{};':" ++ [0x22; 0x5C]%N ++ text "|,.<>/?"
  ++ text "，。！？；：、“”‘’（）【】《》·…—".

(** Two code units are the same character up to the case of an ASCII letter. *)
Definition equalIgnoringCase (a b : N) : bool :=
  ((a =? b)
   || isAsciiLetter a && isAsciiLetter b && ((a + 0x20 =? b) || (b + 0x20 =? a)))%N.

(** [s] without the leading word [w]. *)
Fixpoint withoutWord (w s : jsstring) : option jsstring :=
  match w, s with
  | [], _ => Some s
  | _ :: _, [] => None
  | c :: w', x :: s' => if equalIgnoringCase c x then withoutWord w' s' else None
  end.

(** [s] without a leading separator and the white space around it. *)
Definition withoutSeparator (s : jsstring) : option jsstring :=
  match dropWhile isSpace s with
  | c :: s' =>
      if existsb (N.eqb c) listedSeparators then Some (dropWhile isSpace s') else None
  | [] => None
  end.

(** [value] without one leading failure prefix and its separator. *)
Definition withoutPrefix (value : jsstring) : jsstring :=
  match firstSome (fun w => withoutWord w value ≫= withoutSeparator) listedPrefixes with
  | Some rest => rest
  | None => value
  end.

Definition isListedRemovable (c : N) : bool :=
  isSpace c || existsb (N.eqb c) listedPunctuation.

(** Trim; strip one failure prefix; lower-case; delete the white space and
    the listed punctuation. *)
Definition normalizedAsListed `{Host} (s : jsstring) : jsstring :=
  match trim s with
  | [] => []
  | value => List.filter (fun c => negb (isListedRemovable c))
               (toLowerCase (withoutPrefix value))
  end.

(** The test both layers apply to two normalized messages: the window layer
    in [duplicatedSimilar], the store in the callback of [some]. *)
Definition similarInWindow (core lastNormalized : jsstring) : bool :=
  truthy core && truthy lastNormalized
  && (includes core lastNormalized || includes lastNormalized core).

Definition similarInStore (current existing : jsstring) : bool :=
  truthy current && truthy existing
  && (str_eqb existing current || includes existing current || includes current existing).

(** ** Runs of the de-duplication layer *)

(** [shouldSkip] applied to a sequence of timed messages of one type. *)
Fixpoint runSkips `{Host} (ty : NoticeType) (evs : list (Z * jsstring))
    (d : Notify.Dedupe) : list bool :=
  match evs with
  | [] => []
  | (t, m) :: evs' =>
      let '(b, d') := Notify.shouldSkip ty m t d in
      b :: runSkips ty evs' d'
  end.

(** Every message arrives at most the window after the one before it. *)
Fixpoint closeTogether (prev : Z) (ts : list Z) : Prop :=
  match ts with
  | [] => True
  | t :: ts' => t - prev <= Notify.dedupeWindowMs /\ closeTogether t ts'
  end.

(** ** Reachable states of the notice store *)

Inductive StoreOp :=
| OpShow (msg : jsstring) (kind : NoticeType) (duration now : Z)
| OpRemove (i : Z)
| OpClear
| OpClearAll
| OpFire (t : NoticeStore.Timeout).

Definition applyOp `{Host} (op : StoreOp) (st : NoticeStore.Store) : NoticeStore.Store :=
  match op with
  | OpShow msg kind duration now => (NoticeStore.show msg kind duration now st).2
  | OpRemove i => NoticeStore.remove i st
  | OpClear => NoticeStore.clear st
  | OpClearAll => NoticeStore.clearAll st
  | OpFire t => NoticeStore.fire t st
  end.

Inductive reachable `{Host} : NoticeStore.Store -> Prop :=
| reachable_initial : reachable NoticeStore.initial
| reachable_step op st : reachable st -> reachable (applyOp op st).

(** ** Page selection, as the specification words it *)

(** [floor(raw)] clamped into [1 .. total_page]. *)
Definition clampPage (raw : JSNumber) (tp : Z) : Z :=
  match raw with
  | Fin q => Z.min (Z.max (Qfloor q) 1) tp
  | PosInf => tp
  | _ => Z.min 1 tp
  end.

Definition changePageSpec (pg : Pagination) (p : Z) : option Z :=
  if (p <? 1) || (total_page pg <? p) then None else Some p.

Definition jumpToPageSpec `{NumberHost} (pg : Pagination) (input : jsstring) : option Z :=
  match input with
  | [] => None
  | _ =>
      match Number input with
      | NaN => None
      | raw =>
          let target := clampPage raw (total_page pg) in
          if target =? page pg then None else changePageSpec pg target
      end
  end.

(** ** The steps of [show] and the invariant of the store *)

(** The store after [show] has pushed the item and registered its timer,
    before it looks at the length of the list. *)
Definition appended (message : jsstring) (kind : NoticeType) (duration now : Z)
    (st : NoticeStore.Store) : NoticeStore.Store :=
  let i := NoticeStore.sequence st + 1 in
  {| NoticeStore.items :=
       NoticeStore.items st
       ++ [{| NoticeStore.id := i; NoticeStore.message := message;
              NoticeStore.type := kind |}];
     NoticeStore.timerMap :=
       if 0 <? duration then <[i := NoticeStore.nextHandle st]> (NoticeStore.timerMap st)
       else NoticeStore.timerMap st;
     NoticeStore.sequence := i;
     NoticeStore.timeouts :=
       if 0 <? duration
       then NoticeStore.timeouts st
            ++ [{| NoticeStore.handle := NoticeStore.nextHandle st;
                   NoticeStore.fireAt := now + duration;
                   NoticeStore.noticeId := i |}]
       else NoticeStore.timeouts st;
     NoticeStore.nextHandle :=
       if 0 <? duration then NoticeStore.nextHandle st + 1
       else NoticeStore.nextHandle st |}.

(** [remove] applied to the items of [l], in order. *)
Definition removeEach (l : list NoticeStore.NoticeItem) (st : NoticeStore.Store)
    : NoticeStore.Store :=
  foldl (fun st item => NoticeStore.remove (NoticeStore.id item) st) st l.

(** The last step of [show]: the items beyond the newest five are removed. *)
Definition trimOverflow (st : NoticeStore.Store) : NoticeStore.Store :=
  if (5 <? length (NoticeStore.items st))%nat
  then removeEach (take (length (NoticeStore.items st) - 5) (NoticeStore.items st)) st
  else st.

(** Ids are issued by the counter and never reused, every active timer is
    the one registered for a visible notice, and handles are fresh. *)
Definition wf (st : NoticeStore.Store) : Prop :=
  Forall (fun it => NoticeStore.id it <= NoticeStore.sequence st) (NoticeStore.items st)
  /\ NoDup (NoticeStore.id <$> NoticeStore.items st)
  /\ Forall (fun t => NoticeStore.timerMap st !! NoticeStore.noticeId t
                        = Some (NoticeStore.handle t)
                      /\ NoticeStore.noticeId t ∈ (NoticeStore.id <$> NoticeStore.items st))
            (NoticeStore.timeouts st)
  /\ (forall i h, NoticeStore.timerMap st !! i = Some h -> h < NoticeStore.nextHandle st)
  /\ (forall i j h, NoticeStore.timerMap st !! i = Some h ->
                   NoticeStore.timerMap st !! j = Some h -> i = j).

(** "Some visible item has type [kind], its normalized message and the one of
    [msg] are both non-empty, and they are equal or one includes the other." *)
Definition similarVisible `{Host} (kind : NoticeType) (msg : jsstring)
    (st : NoticeStore.Store) : Prop :=
  exists item,
    item ∈ NoticeStore.items st
    /\ NoticeStore.type item = kind
    /\ NoticeStore.simplifyNoticeMessage (NoticeStore.message item) <> []
    /\ NoticeStore.simplifyNoticeMessage msg <> []
    /\ (NoticeStore.simplifyNoticeMessage (NoticeStore.message item)
          = NoticeStore.simplifyNoticeMessage msg
        \/ includes (NoticeStore.simplifyNoticeMessage (NoticeStore.message item))
                    (NoticeStore.simplifyNoticeMessage msg) = true
        \/ includes (NoticeStore.simplifyNoticeMessage msg)
                    (NoticeStore.simplifyNoticeMessage (NoticeStore.message item)) = true).

(** A run of store operations, the first of the list applied last. *)
Definition runOps `{Host} (ops : list StoreOp) (st : NoticeStore.Store)
    : NoticeStore.Store :=
  foldr applyOp st ops.

(** A store showing five notices, "e" being the newest, under [asciiHost]. *)
Definition fiveNotices : NoticeStore.Store :=
  @runOps asciiHost
    [OpShow (str "e") info 6000 40; OpShow (str "d") info 6000 30;
     OpShow (str "c") info 6000 20; OpShow (str "b") info 6000 10;
     OpShow (str "a") info 6000 0]
    NoticeStore.initial.

(** ** Further invariants of the store *)

(** Every entry of [timerMap] belongs to a visible notice and to a timer
    that is still active. *)
Definition tracked (st : NoticeStore.Store) : Prop :=
  forall i h,
    NoticeStore.timerMap st !! i = Some h ->
    i ∈ (NoticeStore.id <$> NoticeStore.items st)
    /\ exists t, t ∈ NoticeStore.timeouts st
                 /\ NoticeStore.handle t = h /\ NoticeStore.noticeId t = i.

(** The list is kept oldest first: ids grow along it, start at 1 and never
    exceed the counter. *)
Definition ordered (st : NoticeStore.Store) : Prop :=
  StronglySorted Z.lt (NoticeStore.id <$> NoticeStore.items st)
  /\ Forall (fun it => 0 < NoticeStore.id it <= NoticeStore.sequence st)
            (NoticeStore.items st).

(** The notices whose timer is due at [now]. *)
Definition dueIds (now : Z) (st : NoticeStore.Store) : list Z :=
  NoticeStore.noticeId
    <$> filter (fun t => NoticeStore.fireAt t <= now) (NoticeStore.timeouts st).

(** What has happened to the store of [st0] once the timers of the notices
    in [done] have fired. *)
Definition firedOn (st0 : NoticeStore.Store) (done : list Z) (st : NoticeStore.Store)
    : Prop :=
  NoticeStore.items st
    = filter (fun it => NoticeStore.id it ∉ done) (NoticeStore.items st0)
  /\ NoticeStore.timeouts st
     = filter (fun t => NoticeStore.noticeId t ∉ done) (NoticeStore.timeouts st0)
  /\ (forall j, j ∉ done ->
        NoticeStore.timerMap st !! j = NoticeStore.timerMap st0 !! j).

(** ** [Coupons.vue]: the scope ids of the coupon form *)
Module CouponScope.

(** The class [[,，\s]]. *)
Definition isScopeSeparator (c : N) : bool :=
  ((c =? 0x2C) || (c =? 0xFF0C))%N || isSpace c.

(** [s.split(/[p]+/)] for a class [p]: the pieces between the maximal runs of
    [p]; a run at the start or at the end leaves an empty piece there, and
    the empty string gives one empty piece. [cur] is the piece being read,
    reversed, and [inRun] tells that the last code unit was in [p]. *)
Fixpoint splitRuns (p : N -> bool) (inRun : bool) (cur : jsstring) (s : jsstring)
  : list jsstring :=
  match s with
  | [] => [rev cur]
  | c :: s' =>
      if p c then
        if inRun then splitRuns p true cur s'
        else rev cur :: splitRuns p true [] s'
      else splitRuns p false (c :: cur) s'
  end.

Definition splitCls (p : N -> bool) (s : jsstring) : list jsstring :=
  splitRuns p false [] s.

Definition digitChar (d : Z) : N := (0x30 + Z.to_N d)%N.

Fixpoint digits_go (fuel : nat) (n : Z) (acc : jsstring) : jsstring :=
  match fuel with
  | O => acc
  | S fuel' =>
      let acc' := digitChar (n mod 10) :: acc in
      if n / 10 =? 0 then acc' else digits_go fuel' (n / 10) acc'
  end.

(** [String(n)] for an integer [n] (below 10^21 in magnitude, where
    JavaScript still prints every digit). *)
Definition decimal (n : Z) : jsstring :=
  if n <? 0 then 0x2D%N :: digits_go (S (Z.to_nat (Z.log2 (- n)))) (- n) []
  else digits_go (S (Z.to_nat (Z.log2 n))) n [].

(** [pieces.join(sep)]. *)
Fixpoint join (sep : jsstring) (pieces : list jsstring) : jsstring :=
  match pieces with
  | [] => []
  | [x] => x
  | x :: rest => x ++ sep ++ join sep rest
  end.

(** [Number.isFinite]. *)
Definition isFinite (n : JSNumber) : bool :=
  match n with Fin _ => true | _ => false end.

(** What the API may hold in [scope_ref_ids]: an array of ids, a string
    (the array as JSON text), or something else. *)
Inductive ScopeValue :=
| ScopeArray (ids : list Z)
| ScopeString (s : jsstring)
| ScopeOther.

(** The outcomes of [JSON.parse] that [formatScopeInput] tells apart. *)
Inductive Parsed :=
| ParseError
| ParsedArray (ids : list Z)
| ParsedOther.

Class JSONHost := JSON_parse : jsstring -> Parsed.

Definition formatScopeInput `{JSONHost} (scope : ScopeValue) : jsstring :=
  match scope with
  | ScopeArray ids => join (str ", ") (decimal <$> ids)
  | ScopeString s =>
      match JSON_parse s with
      | ParsedArray ids => join (str ", ") (decimal <$> ids)
      | ParseError => s
      | ParsedOther => []
      end
  | ScopeOther => []
  end.

Definition parseScopeIDs `{NumberHost} (raw : jsstring) : list JSNumber :=
  List.filter (fun item => isFinite item && num_ltb (ofZ 0) item)
    (Number <$> splitCls isScopeSeparator raw).

(** A host that parses nothing, for runs that only format arrays. *)
Definition noJSON : JSONHost := fun _ => ParseError.

End CouponScope.

(** ** The settings page *)
Module Settings.

(** The primitive values a form field or a JSON setting holds. *)
Inductive Primitive :=
| PUndefined
| PNull
| PBoolean (b : bool)
| PNumber (n : JSNumber)
| PString (s : jsstring).

(** [Number(value)] on a primitive. *)
Definition toNumber `{NumberHost} (value : Primitive) : JSNumber :=
  match value with
  | PUndefined => NaN
  | PNull => ofZ 0
  | PBoolean b => ofZ (if b then 1 else 0)
  | PNumber n => n
  | PString s => Number s
  end.

Definition normalizeNumber `{NumberHost} (value : Primitive) (fallback : JSNumber)
    : JSNumber :=
  match value with
  | PNull | PUndefined | PString [] => fallback
  | _ =>
      let parsed := toNumber value in
      if isNaN parsed then fallback else parsed
  end.

Definition clampNumber `{NumberHost} (value : Primitive) (min max fallback : JSNumber)
    : JSNumber :=
  let parsed := normalizeNumber value fallback in
  if num_ltb parsed min then min
  else if num_ltb max parsed then max
  else parsed.

(** JSON data as the API returns it. An object lists its properties, each
    name once; [field] reads a property, [None] when it is absent. *)
#[warnings="-register-all"]
Inductive JSValue :=
| VNull
| VBoolean (b : bool)
| VNumber (n : JSNumber)
| VString (s : jsstring)
| VArray (elements : list JSValue)
| VObject (fields : list (string * JSValue)).

Fixpoint field (name : string) (fields : list (string * JSValue)) : option JSValue :=
  match fields with
  | [] => None
  | (k, v) :: rest => if String.eqb k name then Some v else field name rest
  end.

Inductive SiteScriptPosition := position_head | position_body_end.

Record SiteScriptItem := {
  name : jsstring;
  enabled : bool;
  position : SiteScriptPosition;
  code : jsstring
}.

Definition siteScriptsMaxCount : nat := 20.

Definition createSiteScriptItem : SiteScriptItem :=
  {| name := []; enabled := true; position := position_head; code := [] |}.

(** [None] is a property that is absent, hence [undefined]. *)
Definition normalizeSiteScriptPosition (raw : option JSValue) : SiteScriptPosition :=
  match raw with
  | Some (VString s) => if str_eqb s (str "body_end") then position_body_end else position_head
  | _ => position_head
  end.

Definition normalizeSiteScriptEnabled `{Host} (raw : option JSValue) : bool :=
  match raw with
  | Some (VBoolean b) => b
  | Some (VNumber n) => negb (num_eqb n (ofZ 0))
  | Some (VString s) =>
      let value := toLowerCase (trim s) in
      str_eqb value (str "1") || str_eqb value (str "true")
      || str_eqb value (str "yes") || str_eqb value (str "on")
  | _ => false
  end.

Definition stringOr (raw : option JSValue) : jsstring :=
  match raw with Some (VString s) => s | _ => [] end.

(** The callback of [map] in [normalizeSiteScripts]; [None] is [null].
    An array passes the [typeof] test and has none of the four properties. *)
Definition toSiteScriptItem `{Host} (item : JSValue) : option SiteScriptItem :=
  let fields :=
    match item with
    | VObject fields => Some fields
    | VArray _ => Some []
    | _ => None
    end in
  match fields with
  | Some value =>
      Some {| name := stringOr (field "name" value);
              enabled := normalizeSiteScriptEnabled (field "enabled" value);
              position := normalizeSiteScriptPosition (field "position" value);
              code := stringOr (field "code" value) |}
  | None => None
  end.

Definition normalizeSiteScripts `{Host} (raw : JSValue) : list SiteScriptItem :=
  match raw with
  | VArray elements => take siteScriptsMaxCount (omap toSiteScriptItem elements)
  | _ => []
  end.

(** The object a script item is sent as when the settings are saved. *)
Definition scriptToJSON (item : SiteScriptItem) : JSValue :=
  VObject
    [ ("name"%string, VString (name item));
      ("enabled"%string, VBoolean (enabled item));
      ("position"%string,
       VString (match position item with
                | position_head => str "head"
                | position_body_end => str "body_end"
                end));
      ("code"%string, VString (code item)) ].

(** [addSiteScriptItem()] at time [now]; [hint] is the translated text of
    the limit message. The result holds the list, the notification state
    and what [notifyError] did, if it was called. *)
Definition addSiteScriptItem `{Host} (hint : jsstring) (now : Z)
    (scripts : list SiteScriptItem) (w : Notify.Dedupe * NoticeStore.Store)
    : list SiteScriptItem * (Notify.Dedupe * NoticeStore.Store) * option Notify.Outcome :=
  if (siteScriptsMaxCount <=? length scripts)%nat then
    let '(outcome, w') := Notify.notifyError (Some hint) now w in
    (scripts, w', Some outcome)
  else (scripts ++ [createSiteScriptItem], w, None).

(** [list.splice(index, 1)]: a negative index counts from the end, an index
    beyond the end removes nothing. *)
Definition spliceOne {A} (index : Z) (l : list A) : list A :=
  let len := Z.of_nat (length l) in
  let start := if index <? 0 then Z.max (len + index) 0 else Z.min index len in
  take (Z.to_nat start) l ++ drop (S (Z.to_nat start)) l.

Definition removeSiteScriptItem (index : Z) (scripts : list SiteScriptItem)
    : list SiteScriptItem :=
  spliceOne index scripts.

End Settings.

(** ** The users page: selecting rows *)
Module Users.

(** A row of the users table; the selection only looks at its id. *)
Record User := {
  id : Z;
  email : jsstring
}.

(** The computed [allSelected]. *)
Definition allSelected (users : list User) (selectedIds : list Z) : bool :=
  if (length users =? 0)%nat then false
  else forallb (fun item => existsb (Z.eqb (id item)) selectedIds) users.

(** [toggleSelectAll()]: the new value of [selectedIds]. *)
Definition toggleSelectAll (users : list User) (selectedIds : list Z) : list Z :=
  if allSelected users selectedIds then []
  else id <$> users.

End Users.

(** ** The layout: theme and locale *)
Module AdminLayout.

Inductive Theme := light | dark.

Definition themeName (theme : Theme) : jsstring :=
  match theme with light => str "light" | dark => str "dark" end.

(** What the layout keeps: the ref [isDark], the class list of the root
    element, [localStorage] and the locale of the i18n instance. *)
Record Layout := {
  isDark : bool;
  classList : list jsstring;
  localStorage : gmap jsstring jsstring;
  locale : jsstring
}.

(** [classList.add(c)] and [classList.remove(c)]. *)
Definition classAdd (c : jsstring) (l : list jsstring) : list jsstring :=
  if existsb (str_eqb c) l then l else l ++ [c].

Definition classRemove (c : jsstring) (l : list jsstring) : list jsstring :=
  List.filter (fun x => negb (str_eqb c x)) l.

Definition applyTheme (theme : Theme) (st : Layout) : Layout :=
  {| isDark := match theme with dark => true | light => false end;
     classList :=
       match theme with
       | dark => classAdd (str "dark") (classList st)
       | light => classRemove (str "dark") (classList st)
       end;
     localStorage := <[str "admin_theme" := themeName theme]> (localStorage st);
     locale := locale st |}.

Definition toggleTheme (st : Layout) : Layout :=
  applyTheme (if isDark st then light else dark) st.

Definition applyLocale (value : jsstring) (st : Layout) : Layout :=
  {| isDark := isDark st; classList := classList st;
     localStorage := <[str "admin_locale" := value]> (localStorage st);
     locale := value |}.

(** The [onMounted] hook; [prefersDark] is what the media query answers. *)
Definition onMounted (prefersDark : bool) (st : Layout) : Layout :=
  let savedTheme := localStorage st !! str "admin_theme" in
  let st :=
    match savedTheme with
    | Some saved =>
        if str_eqb saved (str "light") then applyTheme light st
        else if str_eqb saved (str "dark") then applyTheme dark st
        else applyTheme (if prefersDark then dark else light) st
    | None => applyTheme (if prefersDark then dark else light) st
    end in
  let savedLocale := localStorage st !! str "admin_locale" in
  match savedLocale with
  | Some saved => if truthy saved then applyLocale saved st else st
  | None => st
  end.

End AdminLayout.

(** Two failure words that start alike: the canonical forms agree as far as
    the shorter one goes. *)
Definition sameStart (w0 w : jsstring) : bool :=
  let m := Nat.min (length w0) (length w) in
  str_eqb (take m (canonicalize <$> w0)) (take m (canonicalize <$> w)).

(** ** The orders page: fulfillment *)
Module Orders.

Record DeliveryEntry := {
  key : jsstring;
  value : jsstring
}.

(** The reactive [fulfillmentForm]. *)
Record FulfillmentForm := {
  payload : jsstring;
  note : jsstring;
  entries : list DeliveryEntry
}.

(** The object [buildDeliveryDataPayload] returns; [None] is a property that
    was not set. *)
Record DeliveryData := {
  data_note : option jsstring;
  data_entries : option (list DeliveryEntry)
}.

(** [String(s || '').trim()] on a string. *)
Definition cleaned (s : jsstring) : jsstring :=
  trim (if truthy s then s else []).

Definition buildDeliveryDataPayload (form : FulfillmentForm) : DeliveryData :=
  let note := cleaned (note form) in
  let entries :=
    List.filter (fun item => truthy (key item) || truthy (value item))
      (List.map (fun item => {| key := cleaned (key item); value := cleaned (value item) |})
         (entries form)) in
  {| data_note := if truthy note then Some note else None;
     data_entries := if (0 <? length entries)%nat then Some entries else None |}.

Definition hasFulfillmentSubmitData (form : FulfillmentForm) : bool :=
  let payloadText := cleaned (payload form) in
  if truthy payloadText then true
  else
    let data := buildDeliveryDataPayload form in
    match data_note data with
    | Some n => truthy n
    | None => false
    end
    || match data_entries data with
       | Some l => (0 <? length l)%nat
       | None => false
       end.

Record OrderItem := {
  fulfillment_type : jsstring
}.

(** The fields of an order the two guards read: [fulfillment] tells whether
    the order has one, [parent_id] is [None] for [null] or [undefined],
    [children] is the number of children when the field is an array,
    [items] is the list when the field is an array. *)
Record Order := {
  status : jsstring;
  fulfillment : bool;
  parent_id : option Z;
  children : option nat;
  items : option (list OrderItem)
}.

Definition isManual (item : OrderItem) : bool :=
  str_eqb (fulfillment_type item) (str "manual").

(** [None] is a missing order. *)
Definition canCreateFulfillment (order : option Order) : bool :=
  match order with
  | None => false
  | Some order =>
      if fulfillment order then false
      else if match parent_id order, children order with
              | None, Some n => (0 <? n)%nat
              | _, _ => false
              end then false
      else if match items order with
              | Some l => (0 <? length l)%nat && negb (forallb isManual l)
              | None => false
              end then false
      else str_eqb (status order) (str "paid") || str_eqb (status order) (str "fulfilling")
  end.

Definition canCreateChildFulfillment (order : option Order) : bool :=
  if negb (canCreateFulfillment order) then false
  else
    match order with
    | None => false
    | Some o =>
        match items o with
        | None => false
        | Some l => if (length l =? 0)%nat then false else forallb isManual l
        end
    end.

End Orders.

(** ** The login log: labels *)

(** The translation function [t] of vue-i18n, on a key. *)
Class Translator := translate : jsstring -> jsstring.

Module LoginLogs.

Definition failReasonPrefix : jsstring := str "admin.userLoginLogs.failReason.".

(** [failReasonLabel(reason)]; [None] is an omitted reason. *)
Definition failReasonLabel `{Translator} (reason : option jsstring) : jsstring :=
  let normalized :=
    trim (match reason with Some r => if truthy r then r else [] | None => [] end) in
  if negb (truthy normalized) then str "-"
  else
    let key := failReasonPrefix ++ normalized in
    let translated := translate key in
    if str_eqb translated key then normalized else translated.

(** A catalogue without entries: vue-i18n answers with the key itself. *)
Definition noTranslations : Translator := fun key => key.

End LoginLogs.

(** * Properties *)

(** ** Strings *)

Lemma truthy_nonempty (s : jsstring) : truthy s = true <-> s <> [].
Proof. destruct s; simpl; split; congruence. Qed.

Lemma truthy_false (s : jsstring) : truthy s = false <-> s = [].
Proof. destruct s; simpl; split; congruence. Qed.

Lemma str_eqb_refl (s : jsstring) : str_eqb s s = true.
Proof. unfold str_eqb. apply bool_decide_eq_true. reflexivity. Qed.

Lemma dropWhile_head p s :
  match dropWhile p s with [] => True | c :: _ => p c = false end.
Proof.
  induction s as [|c s IH]; simpl; [exact I|].
  destruct (p c) eqn:E; [exact IH | exact E].
Qed.

Lemma dropWhile_stable p s :
  match s with [] => True | c :: _ => p c = false end -> dropWhile p s = s.
Proof. destruct s as [|c s]; simpl; [reflexivity|]. intros ->. reflexivity. Qed.

Lemma dropWhile_idem p s : dropWhile p (dropWhile p s) = dropWhile p s.
Proof. apply dropWhile_stable, dropWhile_head. Qed.

Lemma dropWhile_snoc p l c :
  p c = false -> exists x, dropWhile p (l ++ [c]) = x ++ [c].
Proof.
  intros Hc. induction l as [|a l IH]; simpl.
  - rewrite Hc. exists []. reflexivity.
  - destruct (p a); [exact IH|]. exists (a :: l). reflexivity.
Qed.

Lemma trimStart_trim s : trimStart (trim s) = trim s.
Proof.
  unfold trim, trimEnd, trimStart.
  pose proof (dropWhile_head isSpace s) as Hh.
  destruct (dropWhile isSpace s) as [|c r]; [reflexivity|].
  change (rev (c :: r)) with (rev r ++ [c]).
  destruct (dropWhile_snoc isSpace (rev r) c Hh) as [x ->].
  rewrite rev_app_distr. simpl. rewrite Hh. reflexivity.
Qed.

Lemma trim_idem s : trim (trim s) = trim s.
Proof.
  unfold trim at 1. rewrite trimStart_trim.
  unfold trim, trimEnd. rewrite rev_involutive, dropWhile_idem. reflexivity.
Qed.

Lemma includes_refl s : includes s s = true.
Proof.
  assert (Hs : forall t : jsstring, startsWith t t = true).
  { induction t as [|a t IH]; simpl; [reflexivity|]. rewrite N.eqb_refl. exact IH. }
  destruct s; simpl; [reflexivity|]. rewrite N.eqb_refl, Hs. reflexivity.
Qed.

(** ** The window layer of [notify.ts] *)
Section NotifyFacts.
Context `{Host}.
Import NoticeStore Notify.

Lemma simplifyMessage_trim s : simplifyMessage (trim s) = simplifyMessage s.
Proof. unfold simplifyMessage. rewrite trim_idem. reflexivity. Qed.

(** The state a call leaves behind when the trimmed content is not empty. *)
Lemma shouldSkip_state ty m now d :
  trim m <> [] ->
  (shouldSkip ty m now d).2 =
    {| lastMessage := trim m; lastNormalized := simplifyMessage m;
       lastType := Some ty; lastAt := now |}.
Proof.
  intros Hm. unfold shouldSkip.
  apply truthy_nonempty in Hm. rewrite Hm. simpl.
  rewrite simplifyMessage_trim. reflexivity.
Qed.

(** What the call answers from a state in which the same trimmed content
    of the same type is the last one recorded. *)
Lemma shouldSkip_exact ty m now d :
  trim m <> [] -> lastType d = Some ty -> lastMessage d = trim m ->
  now - lastAt d <= dedupeWindowMs ->
  (shouldSkip ty m now d).1 = true.
Proof.
  intros Hm Hty Hmsg Hwin. unfold shouldSkip.
  apply truthy_nonempty in Hm. rewrite Hm. simpl.
  rewrite Hty, Hmsg, str_eqb_refl.
  rewrite bool_decide_eq_true_2 by reflexivity.
  apply Z.leb_le in Hwin. rewrite Hwin. reflexivity.
Qed.

Lemma shouldSkip_similar ty m now d :
  trim m <> [] -> lastType d = Some ty ->
  now - lastAt d <= dedupeWindowMs ->
  similarInWindow (simplifyMessage m) (lastNormalized d) = true ->
  (shouldSkip ty m now d).1 = true.
Proof.
  intros Hm Hty Hwin Hsim. unfold shouldSkip.
  apply truthy_nonempty in Hm. rewrite Hm. simpl.
  rewrite simplifyMessage_trim, Hty.
  rewrite bool_decide_eq_true_2 by reflexivity.
  apply Z.leb_le in Hwin. rewrite Hwin.
  unfold similarInWindow in Hsim.
  apply andb_prop in Hsim as [Hsim Hinc]. apply andb_prop in Hsim as [Hc Hl].
  rewrite Hc, Hl, Hinc. simpl. rewrite !orb_true_r. reflexivity.
Qed.


(** The content [pushNotice] passes on for a message that is not blank. *)
Lemma pushNotice_unfold m ty key now d store :
  trim m <> [] ->
  pushNotice (Some m) ty key now (d, store) =
    if (shouldSkip ty m now d).1
    then (Skipped, ((shouldSkip ty m now d).2, store))
    else (Shown (show m ty 6000 now store).1,
          ((shouldSkip ty m now d).2, (show m ty 6000 now store).2)).
Proof.
  intros Hm. unfold pushNotice.
  assert (Ht : truthy m && truthy (trim m) = true).
  { apply truthy_nonempty in Hm. rewrite Hm.
    destruct m; [simpl in Hm; discriminate | reflexivity]. }
  rewrite Ht.
  destruct (shouldSkip ty m now d) as [b d']. simpl.
  destruct b; [reflexivity|].
  destruct (show m ty 6000 now store). reflexivity.
Qed.

End NotifyFacts.

(** ** The two layers compare messages the same way *)
Section Layers.
Context `{Host}.
Import NoticeStore Notify.

Lemma simplifyNoticeMessage_eq s : simplifyNoticeMessage s = simplifyMessage s.
Proof.
  unfold simplifyNoticeMessage, simplifyMessage.
  destruct s; reflexivity.
Qed.

Lemma simplifyNoticeMessage_trim s :
  simplifyNoticeMessage (trim s) = simplifyNoticeMessage s.
Proof. rewrite !simplifyNoticeMessage_eq. apply simplifyMessage_trim. Qed.

Lemma similar_layers (a b : jsstring) : similarInStore a b = similarInWindow a b.
Proof.
  unfold similarInStore, similarInWindow. f_equal.
  unfold str_eqb. destruct (bool_decide_reflect (b = a)) as [->|_]; simpl.
  - rewrite includes_refl. reflexivity.
  - apply orb_comm.
Qed.

(** The answer of [shouldSkip] is the conjunction of "same type", "within the
    window" and "same trimmed text or similar cores". *)
Lemma shouldSkip_answer ty m now d :
  trim m <> [] ->
  (shouldSkip ty m now d).1 =
    bool_decide (lastType d = Some ty)
    && (now - lastAt d <=? dedupeWindowMs)
    && (str_eqb (lastMessage d) (trim m)
        || similarInWindow (simplifyMessage m) (lastNormalized d)).
Proof.
  intros Hm. unfold shouldSkip, similarInWindow.
  apply truthy_nonempty in Hm. rewrite Hm. simpl.
  rewrite simplifyMessage_trim.
  destruct (bool_decide (lastType d = Some ty)); simpl; [|reflexivity].
  destruct (now - lastAt d <=? dedupeWindowMs); simpl;
    [|rewrite !andb_false_r; reflexivity].
  rewrite !andb_true_r.
  destruct (str_eqb (lastMessage d) (trim m)); simpl; [reflexivity|].
  unfold str_eqb.
  destruct (bool_decide_reflect (lastNormalized d = simplifyMessage m)) as [->|_].
  - rewrite includes_refl. simpl.
    destruct (truthy (simplifyMessage m)); reflexivity.
  - rewrite andb_false_r. reflexivity.
Qed.

(** The callback of [some] in [hasSimilarVisibleNotice], for a message whose
    core is [current]. *)
Lemma similarTo_answer kind current item :
  truthy current = true ->
  similarTo kind current item =
    bool_decide (type item = kind)
    && similarInStore current (simplifyNoticeMessage (message item)).
Proof.
  intros Hc. unfold similarTo, similarInStore. rewrite Hc.
  destruct (bool_decide (type item = kind)); simpl; [|reflexivity].
  destruct (truthy (simplifyNoticeMessage (message item))); reflexivity.
Qed.

Lemma shouldSkip_answer_total ty m now d :
  (shouldSkip ty m now d).1 =
    truthy (trim m)
    && bool_decide (lastType d = Some ty)
    && (now - lastAt d <=? dedupeWindowMs)
    && (str_eqb (lastMessage d) (trim m)
        || similarInWindow (simplifyMessage m) (lastNormalized d)).
Proof.
  destruct (truthy (trim m)) eqn:Hm.
  - rewrite shouldSkip_answer by (apply truthy_nonempty, Hm). reflexivity.
  - unfold shouldSkip. rewrite Hm. reflexivity.
Qed.

Lemma hasSimilar_answer kind a st :
  hasSimilarVisibleNotice kind a st =
    existsb (fun item =>
               bool_decide (type item = kind)
               && similarInStore (simplifyNoticeMessage a)
                                 (simplifyNoticeMessage (message item)))
            (items st).
Proof.
  unfold hasSimilarVisibleNotice.
  destruct (truthy (simplifyNoticeMessage a)) eqn:Hc; simpl.
  - induction (items st) as [|item l IH]; simpl; [reflexivity|].
    rewrite IH, similarTo_answer by exact Hc. reflexivity.
  - induction (items st) as [|item l IH]; simpl; [reflexivity|].
    rewrite <- IH. unfold similarInStore. rewrite Hc, andb_false_r. reflexivity.
Qed.

End Layers.

(** ** Claims about the window layer *)

(** C1. Exact-duplicate suppression: once [shouldSkip] has recorded a message
    of type [ty] at [t0], a call for the same type with the same trimmed,
    non-empty content at [t1], [t1 - t0 <= 1500], answers [true], and
    [pushNotice] returns without calling [store.show]. *)
Theorem exact_duplicate_suppressed `{Host} (ty : NoticeType) (m0 m : jsstring)
    (t0 t1 : Z) (d0 : Notify.Dedupe) (key : string) (store : NoticeStore.Store) :
  trim m <> [] -> trim m0 = trim m -> t1 - t0 <= 1500 ->
  let d1 := (Notify.shouldSkip ty m0 t0 d0).2 in
  (Notify.shouldSkip ty m t1 d1).1 = true /\
  (Notify.pushNotice (Some m) ty key t1 (d1, store)).1 = Notify.Skipped /\
  (Notify.pushNotice (Some m) ty key t1 (d1, store)).2.2 = store.
Proof.
  intros Hm Heq Hwin d1.
  assert (Hskip : (Notify.shouldSkip ty m t1 d1).1 = true).
  { subst d1. rewrite shouldSkip_state by congruence.
    apply shouldSkip_exact; simpl; auto. }
  split; [exact Hskip|].
  rewrite pushNotice_unfold by exact Hm. rewrite Hskip. split; reflexivity.
Qed.

Lemma exact_duplicate_suppressed_witness :
  let d1 := (@Notify.shouldSkip asciiHost error (str " boom") 100 Notify.initial).2 in
  (@Notify.shouldSkip asciiHost error (str "boom ") 1600 d1).1 = true /\
  (@Notify.pushNotice asciiHost (Some (str "boom ")) error "k" 1600
     (d1, NoticeStore.initial)).1 = Notify.Skipped /\
  (@Notify.pushNotice asciiHost (Some (str "boom ")) error "k" 1600
     (d1, NoticeStore.initial)).2.2 = NoticeStore.initial.
Proof.
  apply (@exact_duplicate_suppressed asciiHost error (str " boom") (str "boom ")
           100 1600 Notify.initial "k" NoticeStore.initial).
  - vm_compute. discriminate.
  - reflexivity.
  - lia.
Defined.

(** C2. Fuzzy suppression: when [shouldSkip(ty, m1)] ran at [t0] and
    [shouldSkip(ty, m2)] runs at [t1] with [t1 - t0 <= 1500], both trimmed
    forms and both normalized cores are non-empty and one core includes the
    other, the second call answers [true] and the second toast is not shown. *)
Theorem similar_message_suppressed `{Host} (ty : NoticeType) (m1 m2 : jsstring)
    (t0 t1 : Z) (d0 : Notify.Dedupe) (key : string) (store : NoticeStore.Store) :
  trim m1 <> [] -> trim m2 <> [] -> t1 - t0 <= 1500 ->
  Notify.simplifyMessage m1 <> [] -> Notify.simplifyMessage m2 <> [] ->
  includes (Notify.simplifyMessage m2) (Notify.simplifyMessage m1) = true
  \/ includes (Notify.simplifyMessage m1) (Notify.simplifyMessage m2) = true ->
  let d1 := (Notify.shouldSkip ty m1 t0 d0).2 in
  (Notify.shouldSkip ty m2 t1 d1).1 = true /\
  Notify.pushNotice (Some m2) ty key t1 (d1, store)
    = (Notify.Skipped, ((Notify.shouldSkip ty m2 t1 d1).2, store)).
Proof.
  intros H1 H2 Hwin Hc1 Hc2 Hinc d1.
  assert (Hskip : (Notify.shouldSkip ty m2 t1 d1).1 = true).
  { subst d1. rewrite shouldSkip_state by exact H1.
    apply shouldSkip_similar; simpl; auto.
    unfold similarInWindow.
    apply truthy_nonempty in Hc1, Hc2. rewrite Hc1, Hc2. simpl.
    destruct Hinc as [-> | ->]; [reflexivity | apply orb_true_r]. }
  split; [exact Hskip|].
  rewrite pushNotice_unfold by exact H2. rewrite Hskip. reflexivity.
Qed.

Lemma similar_message_suppressed_witness :
  let d1 := (@Notify.shouldSkip asciiHost error (str "Request failed: Timeout!")
               0 Notify.initial).2 in
  (@Notify.shouldSkip asciiHost error (str "timeout") 1500 d1).1 = true /\
  @Notify.pushNotice asciiHost (Some (str "timeout")) error "k" 1500
     (d1, NoticeStore.initial)
    = (Notify.Skipped,
       ((@Notify.shouldSkip asciiHost error (str "timeout") 1500 d1).2,
        NoticeStore.initial)).
Proof.
  apply (@similar_message_suppressed asciiHost error
           (str "Request failed: Timeout!") (str "timeout")
           0 1500 Notify.initial "k" NoticeStore.initial).
  - vm_compute. discriminate.
  - vm_compute. discriminate.
  - lia.
  - vm_compute. discriminate.
  - vm_compute. discriminate.
  - left. vm_compute. reflexivity.
Defined.

Section Sliding.
Context `{Host}.
Import Notify.

(** From a state that holds [c] as the last message of type [ty], recorded at
    [t], a close run of further copies is skipped without exception. *)
Lemma runSkips_all_true ty c :
  c <> [] ->
  forall evs t d,
    lastType d = Some ty -> lastMessage d = c -> lastAt d = t ->
    Forall (fun e : Z * jsstring => trim e.2 = c) evs ->
    closeTogether t evs.*1 ->
    runSkips ty evs d = repeat true (length evs).
Proof.
  intros Hc. induction evs as [|[t1 m1] evs IH]; intros t d Hty Hmsg Hat Hall Hclose.
  - reflexivity.
  - apply Forall_cons in Hall as [Hm1 Hall]. simpl in Hm1.
    destruct Hclose as [Hgap Hclose].
    assert (Hne : trim m1 <> []) by congruence.
    pose proof (shouldSkip_exact ty m1 t1 d Hne Hty ltac:(congruence)
                  ltac:(rewrite Hat; exact Hgap)) as Hb.
    pose proof (shouldSkip_state ty m1 t1 d Hne) as Hd.
    simpl. destruct (shouldSkip ty m1 t1 d) as [b d']. simpl in Hb, Hd. subst b d'.
    f_equal. apply (IH t1); simpl; auto.
Qed.

End Sliding.

(** C9. The window slides on suppressed messages: a call of [shouldSkip] with
    non-empty trimmed content overwrites [lastType], [lastMessage],
    [lastNormalized] and [lastAt] whatever it answers; hence in a run of
    same-type messages with the same trimmed content, each at most 1500 ms
    after the one before, every message after the first is skipped, however
    long the run lasts. *)
Theorem window_slides `{Host} (ty : NoticeType) :
  (forall m now d, trim m <> [] ->
     (Notify.shouldSkip ty m now d).2 =
       {| Notify.lastMessage := trim m;
          Notify.lastNormalized := Notify.simplifyMessage (trim m);
          Notify.lastType := Some ty;
          Notify.lastAt := now |}) /\
  (forall c t0 m0 evs d, c <> [] ->
     Forall (fun e : Z * jsstring => trim e.2 = c) ((t0, m0) :: evs) ->
     closeTogether t0 evs.*1 ->
     tail (runSkips ty ((t0, m0) :: evs) d) = repeat true (length evs)).
Proof.
  split.
  - intros m now d Hm. rewrite simplifyMessage_trim. apply shouldSkip_state, Hm.
  - intros c t0 m0 evs d Hc Hall Hclose.
    apply Forall_cons in Hall as [Hm0 Hall]. simpl in Hm0.
    assert (Hne : trim m0 <> []) by congruence.
    pose proof (shouldSkip_state ty m0 t0 d Hne) as Hd.
    simpl. destruct (Notify.shouldSkip ty m0 t0 d) as [b d']. simpl in Hd. subst d'.
    simpl. apply (runSkips_all_true ty c Hc evs t0); simpl; auto.
Qed.

Lemma window_slides_witness :
  (@Notify.shouldSkip asciiHost info (str " again ") 7 Notify.initial).2 =
    {| Notify.lastMessage := str "again";
       Notify.lastNormalized := str "again";
       Notify.lastType := Some info;
       Notify.lastAt := 7 |} /\
  tail (@runSkips asciiHost info
          [(0, str "again"); (1500, str "again "); (3000, str " again");
           (4500, str "again")] Notify.initial)
    = [true; true; true].
Proof.
  split.
  - apply (proj1 (@window_slides asciiHost info) (str " again ") 7 Notify.initial).
    vm_compute. discriminate.
  - apply (proj2 (@window_slides asciiHost info) (str "again") 0 (str "again")
             [(1500, str "again "); (3000, str " again"); (4500, str "again")]
             Notify.initial).
    + vm_compute. discriminate.
    + repeat constructor.
    + simpl. unfold Notify.dedupeWindowMs. lia.
Defined.

(** C10. The two copies of the normalizer agree: [simplifyMessage] of
    [notify.ts] and [simplifyNoticeMessage] of the notice store return the same
    string on every input, so the similarity test of the window layer and the
    one of the store accept the same pairs of messages: both layers answer
    through one test on the normalized forms. *)
Theorem normalizers_agree `{Host} (s : jsstring) :
  Notify.simplifyMessage s = NoticeStore.simplifyNoticeMessage s
  /\ (forall a b : jsstring,
        similarInStore (NoticeStore.simplifyNoticeMessage a)
                       (NoticeStore.simplifyNoticeMessage b)
        = similarInWindow (Notify.simplifyMessage a) (Notify.simplifyMessage b))
  /\ (forall kind a st,
        NoticeStore.hasSimilarVisibleNotice kind a st =
          existsb (fun item =>
                     bool_decide (NoticeStore.type item = kind)
                     && similarInWindow (Notify.simplifyMessage a)
                          (Notify.simplifyMessage (NoticeStore.message item)))
                  (NoticeStore.items st))
  /\ (forall ty m now d,
        (Notify.shouldSkip ty m now d).1 =
          truthy (trim m)
          && bool_decide (Notify.lastType d = Some ty)
          && (now - Notify.lastAt d <=? Notify.dedupeWindowMs)
          && (str_eqb (Notify.lastMessage d) (trim m)
              || similarInWindow (Notify.simplifyMessage m) (Notify.lastNormalized d))).
Proof.
  split; [symmetry; apply simplifyNoticeMessage_eq|].
  split; [intros a b; rewrite !simplifyNoticeMessage_eq; apply similar_layers|].
  split; [|apply shouldSkip_answer_total].
  intros kind a st. rewrite hasSimilar_answer.
  induction (NoticeStore.items st) as [|item l IH]; simpl; [reflexivity|].
  rewrite IH, similar_layers, !simplifyNoticeMessage_eq. reflexivity.
Qed.

(** ** The notice store *)
Section StoreFacts.
Context `{Host}.
Import NoticeStore.

Lemma show_unfold msg kind duration now st :
  show msg kind duration now st =
    if negb (truthy (trim msg)) then (None, st)
    else if hasSimilarVisibleNotice kind (trim msg) st then (None, st)
    else (Some (sequence st + 1),
          trimOverflow (appended (trim msg) kind duration now st)).
Proof.
  unfold show, trimOverflow, appended, removeEach, setTimeout.
  destruct (negb (truthy (trim msg))); [reflexivity|].
  destruct (hasSimilarVisibleNotice kind (trim msg) st); [reflexivity|].
  destruct (0 <? duration); reflexivity.
Qed.

Lemma remove_items i st :
  items (remove i st) = filter (fun item => id item ≠ i) (items st).
Proof. unfold remove. destruct (timerMap st !! i); reflexivity. Qed.

Lemma remove_timerMap i st : timerMap (remove i st) = delete i (timerMap st).
Proof.
  unfold remove. destruct (timerMap st !! i) eqn:E; simpl; [reflexivity|].
  symmetry. apply delete_id, E.
Qed.

Lemma remove_timeouts i st :
  timeouts (remove i st) =
    match timerMap st !! i with
    | Some h => filter (fun t => handle t ≠ h) (timeouts st)
    | None => timeouts st
    end.
Proof. unfold remove. destruct (timerMap st !! i); reflexivity. Qed.

Lemma remove_sequence i st : sequence (remove i st) = sequence st.
Proof. unfold remove. destruct (timerMap st !! i); reflexivity. Qed.

Lemma remove_nextHandle i st : nextHandle (remove i st) = nextHandle st.
Proof. unfold remove. destruct (timerMap st !! i); reflexivity. Qed.

Lemma NoDup_ids_filter (P : NoticeItem -> Prop) `{forall x, Decision (P x)} l :
  NoDup (id <$> l) -> NoDup (id <$> filter P l).
Proof.
  induction l as [|a l IH]; [done|].
  rewrite fmap_cons, NoDup_cons. intros [Ha Hl].
  rewrite filter_cons. destruct (decide (P a)); [|auto].
  rewrite fmap_cons, NoDup_cons. split; [|auto].
  intros Hin. apply Ha.
  apply list_elem_of_fmap in Hin as (x & Hx & Hin).
  apply list_elem_of_filter in Hin as [_ Hin].
  apply list_elem_of_fmap. eauto.
Qed.

Lemma remove_wf i st : wf st -> wf (remove i st).
Proof.
  intros (Hids & Hnd & Htm & Hh & Hinj).
  unfold wf. rewrite remove_items, remove_timerMap, remove_timeouts,
    remove_sequence, remove_nextHandle.
  split; [|split; [|split; [|split]]].
  - apply Forall_forall. intros x Hx. apply list_elem_of_filter in Hx as [_ Hx].
    rewrite Forall_forall in Hids. auto.
  - apply NoDup_ids_filter, Hnd.
  - rewrite Forall_forall in Htm.
    assert (Hkeep : forall t, t ∈ timeouts st -> noticeId t ≠ i ->
              delete i (timerMap st) !! noticeId t = Some (handle t)
              /\ noticeId t ∈ id <$> filter (fun item => id item ≠ i) (items st)).
    { intros t Ht Hne. destruct (Htm t Ht) as [Hl Hin]. split.
      - rewrite lookup_delete_ne by congruence. exact Hl.
      - apply list_elem_of_fmap in Hin as (x & Hx & Hin).
        apply list_elem_of_fmap. exists x. split; [exact Hx|].
        apply list_elem_of_filter. split; [congruence | exact Hin]. }
    destruct (timerMap st !! i) as [h|] eqn:E; apply Forall_forall; intros t Ht.
    + apply list_elem_of_filter in Ht as [Hne Ht]. apply Hkeep; [exact Ht|].
      intros Heq. destruct (Htm t Ht) as [Hl _]. rewrite Heq, E in Hl. congruence.
    + apply Hkeep; [exact Ht|].
      intros Heq. destruct (Htm t Ht) as [Hl _]. rewrite Heq, E in Hl. congruence.
  - intros j h Hj. apply lookup_delete_Some in Hj as [_ Hj]. eauto.
  - intros j k h Hj Hk.
    apply lookup_delete_Some in Hj as [_ Hj]. apply lookup_delete_Some in Hk as [_ Hk].
    eauto.
Qed.

End StoreFacts.

Section Overflow.
Import NoticeStore.

Lemma filter_ext_in {A} (P Q : A -> Prop) `{forall x, Decision (P x)}
    `{forall x, Decision (Q x)} (l : list A) :
  (forall x, x ∈ l -> P x <-> Q x) -> filter P l = filter Q l.
Proof.
  induction l as [|a l IH]; intros Hext; [done|].
  rewrite !filter_cons.
  assert (Ha : P a <-> Q a) by (apply Hext; left).
  rewrite IH by (intros x Hx; apply Hext; right; exact Hx).
  destruct (decide (P a)), (decide (Q a)); tauto.
Qed.

Lemma filter_all {A} (P : A -> Prop) `{forall x, Decision (P x)} (l : list A) :
  (forall x, x ∈ l -> P x) -> filter P l = l.
Proof.
  induction l as [|a l IH]; intros Hall; [done|].
  rewrite filter_cons_True by (apply Hall; left).
  rewrite IH; [done|]. intros x Hx. apply Hall. right. exact Hx.
Qed.

Lemma length_filter_mono {A} (P Q : A -> Prop) `{forall x, Decision (P x)}
    `{forall x, Decision (Q x)} (l : list A) :
  (forall x, P x -> Q x) -> (length (filter P l) <= length (filter Q l))%nat.
Proof.
  intros Himp. induction l as [|a l IH]; [done|].
  rewrite !filter_cons.
  destruct (decide (P a)), (decide (Q a)); simpl; try lia.
  exfalso; auto.
Qed.

Lemma removeEach_items l st :
  items (removeEach l st) = filter (fun it => id it ∉ (id <$> l)) (items st).
Proof.
  unfold removeEach. revert st.
  induction l as [|a l IH]; intros st; simpl.
  - symmetry. apply filter_all. intros x _. apply not_elem_of_nil.
  - rewrite IH, remove_items, list_filter_filter.
    apply filter_ext_in. intros x _. rewrite not_elem_of_cons. tauto.
Qed.

Lemma removeEach_sequence l st : sequence (removeEach l st) = sequence st.
Proof.
  unfold removeEach. revert st. induction l as [|a l IH]; intros st; simpl; [done|].
  rewrite IH. apply remove_sequence.
Qed.

Lemma removeEach_nextHandle l st : nextHandle (removeEach l st) = nextHandle st.
Proof.
  unfold removeEach. revert st. induction l as [|a l IH]; intros st; simpl; [done|].
  rewrite IH. apply remove_nextHandle.
Qed.

Lemma removeEach_timerMap l st i :
  timerMap (removeEach l st) !! i =
    if decide (i ∈ id <$> l) then None else timerMap st !! i.
Proof.
  unfold removeEach. revert st. induction l as [|a l IH]; intros st.
  - case_decide as Hin; [apply elem_of_nil in Hin; done | done].
  - change (foldl (fun st item => remove (id item) st) st (a :: l))
      with (foldl (fun st item => remove (id item) st) (remove (id a) st) l).
    rewrite IH, remove_timerMap, fmap_cons.
    destruct (decide (i ∈ id <$> l)) as [Hin|Hnin].
    + rewrite decide_True by (right; exact Hin). reflexivity.
    + destruct (decide (i = id a)) as [->|Hne].
      * rewrite decide_True by left. apply lookup_delete_eq.
      * rewrite decide_False by (rewrite not_elem_of_cons; tauto).
        apply lookup_delete_ne. congruence.
Qed.

Lemma removeEach_wf l st : wf st -> wf (removeEach l st).
Proof.
  unfold removeEach. revert st. induction l as [|a l IH]; intros st Hwf; simpl; [done|].
  apply IH, remove_wf, Hwf.
Qed.

(** Removing the first [k] items by id leaves the others when ids are
    distinct, and never leaves more than the others. *)
Lemma filter_first_ids_NoDup (l : list NoticeItem) k :
  NoDup (id <$> l) ->
  filter (fun it => id it ∉ (id <$> take k l)) l = drop k l.
Proof.
  revert k. induction l as [|a l IH]; intros k Hnd.
  - destruct k; reflexivity.
  - destruct k as [|k]; simpl.
    + apply filter_all. intros x _. apply not_elem_of_nil.
    + rewrite fmap_cons, NoDup_cons in Hnd. destruct Hnd as [Ha Hnd].
      rewrite filter_cons_False by (intros Hn; apply Hn; left).
      rewrite <- (IH k Hnd). apply filter_ext_in.
      intros x Hx. rewrite not_elem_of_cons.
      assert (id x ≠ id a).
      { intros Heq. apply Ha. rewrite <- Heq. apply list_elem_of_fmap_2, Hx. }
      tauto.
Qed.

Lemma filter_first_ids_length (l : list NoticeItem) k :
  (length (filter (fun it => id it ∉ (id <$> take k l)) l) <= length l - k)%nat.
Proof.
  revert k. induction l as [|a l IH]; intros k.
  - destruct k; simpl; lia.
  - destruct k as [|k]; simpl.
    + rewrite <- Nat.sub_0_r at 1. pose proof (length_filter
        (fun it : NoticeItem => id it ∉ (id <$> @nil NoticeItem)) (a :: l)) as Hl.
      simpl in Hl. lia.
    + rewrite filter_cons_False by (intros Hn; apply Hn; left).
      etransitivity; [|apply (IH k)].
      apply length_filter_mono. intros x Hx. rewrite not_elem_of_cons in Hx. tauto.
Qed.

Lemma trimOverflow_length st : (length (items (trimOverflow st)) <= 5)%nat.
Proof.
  unfold trimOverflow. destruct (Nat.ltb_spec 5 (length (items st))) as [Hlt|Hle].
  - rewrite removeEach_items.
    pose proof (filter_first_ids_length (items st) (length (items st) - 5)). lia.
  - exact Hle.
Qed.

Lemma trimOverflow_items st :
  wf st -> items (trimOverflow st) = drop (length (items st) - 5) (items st).
Proof.
  intros (_ & Hnd & _). unfold trimOverflow.
  destruct (Nat.ltb_spec 5 (length (items st))) as [Hlt|Hle].
  - rewrite removeEach_items. apply filter_first_ids_NoDup, Hnd.
  - replace (length (items st) - 5)%nat with 0%nat by lia. reflexivity.
Qed.

Lemma trimOverflow_wf st : wf st -> wf (trimOverflow st).
Proof.
  intros Hwf. unfold trimOverflow.
  destruct (5 <? length (items st))%nat; [apply removeEach_wf|]; exact Hwf.
Qed.

Lemma trimOverflow_sequence st : sequence (trimOverflow st) = sequence st.
Proof.
  unfold trimOverflow. destruct (5 <? length (items st))%nat;
    [apply removeEach_sequence | reflexivity].
Qed.

End Overflow.

Section Invariant.
Context `{Host}.
Import NoticeStore.

Lemma initial_wf : wf initial.
Proof.
  unfold wf, initial. simpl. repeat split.
  - constructor.
  - constructor.
  - constructor.
  - intros i h Hl. rewrite lookup_empty in Hl. discriminate.
  - intros i j h Hl. rewrite lookup_empty in Hl. discriminate.
Qed.

Lemma appended_wf m kind duration now st : wf st -> wf (appended m kind duration now st).
Proof.
  intros (Hids & Hnd & Htm & Hh & Hinj).
  rewrite Forall_forall in Hids. rewrite Forall_forall in Htm.
  assert (Hold : forall x, x ∈ id <$> items st -> x <= sequence st).
  { intros x Hx. apply list_elem_of_fmap in Hx as (it & -> & Hit). auto. }
  unfold wf, appended. simpl. split; [|split; [|split; [|split]]].
  - apply Forall_app. split.
    + apply Forall_forall. intros x Hx. specialize (Hids x Hx). lia.
    + apply Forall_singleton. simpl. lia.
  - rewrite fmap_app. apply NoDup_app. split; [exact Hnd|]. split.
    + intros x Hx Hin. apply list_elem_of_singleton in Hin.
      specialize (Hold x Hx). simpl in Hin. lia.
    + apply NoDup_singleton.
  - rewrite fmap_app. destruct (0 <? duration).
    + apply Forall_app. split.
      * apply Forall_forall. intros t Ht. destruct (Htm t Ht) as [Hl Hin]. split.
        -- rewrite lookup_insert_ne; [exact Hl|]. specialize (Hold _ Hin). lia.
        -- apply elem_of_app. left. exact Hin.
      * apply Forall_singleton. simpl. split.
        -- apply lookup_insert_eq.
        -- apply elem_of_app. right. left.
    + apply Forall_forall. intros t Ht. destruct (Htm t Ht) as [Hl Hin]. split.
      * exact Hl.
      * apply elem_of_app. left. exact Hin.
  - intros j h. destruct (0 <? duration).
    + intros Hl. apply lookup_insert_Some in Hl as [[_ <-] | [_ Hl]].
      * lia.
      * specialize (Hh _ _ Hl). lia.
    + apply Hh.
  - intros j k h. destruct (0 <? duration); [|apply Hinj].
    intros Hj Hk.
    apply lookup_insert_Some in Hj as [[<- <-] | [Hnj Hj]];
      apply lookup_insert_Some in Hk as [[<- Hh'] | [Hnk Hk]].
    + reflexivity.
    + specialize (Hh _ _ Hk). lia.
    + specialize (Hh _ _ Hj). lia.
    + eauto.
Qed.

Lemma show_wf msg kind duration now st :
  wf st -> wf (show msg kind duration now st).2.
Proof.
  intros Hwf. rewrite show_unfold.
  destruct (negb (truthy (trim msg))); [exact Hwf|].
  destruct (hasSimilarVisibleNotice kind (trim msg) st); [exact Hwf|].
  simpl. apply trimOverflow_wf, appended_wf, Hwf.
Qed.

Lemma clear_wf st : wf st -> wf (clear st).
Proof.
  intros Hwf. unfold clear. destruct (items st); [exact Hwf | apply remove_wf, Hwf].
Qed.

(** The loop of [clearAll] only cancels timers. *)
Lemma clearAll_loop l st :
  let g := fun st item =>
             match timerMap st !! id item with
             | Some timeoutId => clearTimeout timeoutId st
             | None => st
             end in
  timerMap (foldl g st l) = timerMap st
  /\ sequence (foldl g st l) = sequence st
  /\ nextHandle (foldl g st l) = nextHandle st
  /\ forall t, t ∈ timeouts (foldl g st l) ->
       t ∈ timeouts st
       /\ forall item, item ∈ l -> timerMap st !! id item ≠ Some (handle t).
Proof.
  intros g. revert st. induction l as [|a l IH]; intros st.
  - simpl. repeat split; auto. intros item Hin. apply elem_of_nil in Hin. done.
  - change (foldl g st (a :: l)) with (foldl g (g st a) l).
    destruct (IH (g st a)) as (Hm & Hs & Hn & Ht).
    assert (Hg : timerMap (g st a) = timerMap st /\ sequence (g st a) = sequence st
                 /\ nextHandle (g st a) = nextHandle st).
    { unfold g. destruct (timerMap st !! id a); auto. }
    destruct Hg as (Hgm & Hgs & Hgn).
    rewrite Hm, Hs, Hn.
    split; [exact Hgm|]. split; [exact Hgs|]. split; [exact Hgn|].
    intros t Htin. destruct (Ht t Htin) as [Hin Hrest]. split.
    + unfold g in Hin. destruct (timerMap st !! id a); [|exact Hin].
      apply list_elem_of_filter in Hin as [_ Hin]. exact Hin.
    + intros item Hitem. apply elem_of_cons in Hitem as [->|Hitem].
      * unfold g in Hin. destruct (timerMap st !! id a) as [h|] eqn:E; [|congruence].
        apply list_elem_of_filter in Hin as [Hne _]. congruence.
      * rewrite <- Hgm. apply Hrest, Hitem.
Qed.

Lemma clearAll_timeouts st : wf st -> timeouts (clearAll st) = [].
Proof.
  intros (_ & _ & Htm & _ & _). rewrite Forall_forall in Htm.
  unfold clearAll. simpl.
  destruct (clearAll_loop (items st) st) as (_ & _ & _ & Ht). simpl in Ht.
  match goal with |- ?l = [] => destruct l as [|t l'] eqn:E end; [reflexivity|].
  exfalso. destruct (Ht t) as [Hin Hno]; [left|].
  destruct (Htm t Hin) as [Hl Hid].
  apply list_elem_of_fmap in Hid as (item & Hid & Hitem).
  apply (Hno item Hitem). rewrite <- Hid. exact Hl.
Qed.

Lemma clearAll_wf st : wf st -> wf (clearAll st).
Proof.
  intros Hwf. pose proof (clearAll_timeouts st Hwf) as Ht.
  unfold wf. split; [|split; [|split; [|split]]].
  - unfold clearAll. simpl. constructor.
  - unfold clearAll. simpl. constructor.
  - rewrite Ht. constructor.
  - unfold clearAll. simpl. intros i h Hl. rewrite lookup_empty in Hl. discriminate.
  - unfold clearAll. simpl. intros i j h Hl. rewrite lookup_empty in Hl. discriminate.
Qed.

Lemma fire_wf t st : wf st -> wf (fire t st).
Proof.
  intros Hwf. unfold fire. destruct (bool_decide (t ∈ timeouts st)); [|exact Hwf].
  apply remove_wf. destruct Hwf as (Hids & Hnd & Htm & Hh & Hinj).
  unfold wf. simpl. repeat split; auto.
  rewrite Forall_forall in Htm. apply Forall_forall. intros t' Ht'.
  apply list_elem_of_filter in Ht' as [_ Ht']. apply Htm, Ht'.
Qed.

Lemma applyOp_wf op st : wf st -> wf (applyOp op st).
Proof.
  destruct op; simpl.
  - apply show_wf.
  - apply remove_wf.
  - apply clear_wf.
  - apply clearAll_wf.
  - apply fire_wf.
Qed.

Lemma reachable_wf st : reachable st -> wf st.
Proof. induction 1; [apply initial_wf | apply applyOp_wf; assumption]. Qed.

Lemma applyOp_bounded op st :
  (length (items st) <= 5)%nat -> (length (items (applyOp op st)) <= 5)%nat.
Proof.
  intros Hle. destruct op as [msg kind duration now | i | | | t]; cbn [applyOp].
  - rewrite show_unfold.
    destruct (negb (truthy (trim msg))); [exact Hle|].
    destruct (hasSimilarVisibleNotice kind (trim msg) st); [exact Hle|].
    apply trimOverflow_length.
  - rewrite remove_items. etransitivity; [apply length_filter | exact Hle].
  - unfold clear. destruct (items st) as [|a l] eqn:E.
    + rewrite E. simpl. lia.
    + rewrite remove_items, E. etransitivity; [apply length_filter | exact Hle].
  - unfold clearAll. simpl. lia.
  - unfold fire. destruct (bool_decide (t ∈ timeouts st)); [|exact Hle].
    rewrite remove_items. etransitivity; [apply length_filter | exact Hle].
Qed.

End Invariant.

Section ShowFacts.
Context `{Host}.
Import NoticeStore.

(** [hasSimilarVisibleNotice] decides [similarVisible]. *)
Lemma hasSimilar_spec kind msg st :
  hasSimilarVisibleNotice kind (trim msg) st = true <-> similarVisible kind msg st.
Proof.
  unfold hasSimilarVisibleNotice, similarVisible.
  rewrite simplifyNoticeMessage_trim.
  destruct (truthy (simplifyNoticeMessage msg)) eqn:Hc; simpl.
  - rewrite existsb_exists. split.
    + intros (item & Hin & Hsim). exists item.
      apply list_elem_of_In in Hin. split; [exact Hin|].
      unfold similarTo in Hsim.
      destruct (bool_decide_reflect (type item = kind)) as [Hty|]; [|discriminate].
      simpl in Hsim.
      destruct (truthy (simplifyNoticeMessage (message item))) eqn:He; [|discriminate].
      simpl in Hsim. split; [exact Hty|].
      split; [apply truthy_nonempty, He|]. split; [apply truthy_nonempty, Hc|].
      apply orb_prop in Hsim as [Hsim|Hsim]; [apply orb_prop in Hsim as [Hsim|Hsim]|].
      * left. apply bool_decide_eq_true in Hsim. exact Hsim.
      * right. left. exact Hsim.
      * right. right. exact Hsim.
    + intros (item & Hin & Hty & He & _ & Hsim). exists item.
      split; [apply list_elem_of_In, Hin|].
      unfold similarTo. rewrite (bool_decide_eq_true_2 _ Hty). simpl.
      apply truthy_nonempty in He. rewrite He. simpl.
      destruct Hsim as [Heq | [Hinc | Hinc]].
      * rewrite Heq, str_eqb_refl. reflexivity.
      * rewrite Hinc, orb_true_r. reflexivity.
      * rewrite Hinc, orb_true_r. reflexivity.
  - split; [discriminate|].
    intros (_ & _ & _ & _ & Hne & _). apply truthy_false in Hc. contradiction.
Qed.

Lemma show_suppressed msg kind duration now st :
  trim msg <> [] -> similarVisible kind msg st ->
  show msg kind duration now st = (None, st).
Proof.
  intros Hm Hsim. rewrite show_unfold.
  apply truthy_nonempty in Hm. rewrite Hm. simpl.
  apply hasSimilar_spec in Hsim. rewrite Hsim. reflexivity.
Qed.

Lemma show_appends msg kind duration now st :
  trim msg <> [] -> ~ similarVisible kind msg st ->
  show msg kind duration now st =
    (Some (sequence st + 1), trimOverflow (appended (trim msg) kind duration now st)).
Proof.
  intros Hm Hsim. rewrite show_unfold.
  apply truthy_nonempty in Hm. rewrite Hm. simpl.
  destruct (hasSimilarVisibleNotice kind (trim msg) st) eqn:E; [|reflexivity].
  apply hasSimilar_spec in E. contradiction.
Qed.

(** A call that returns an id went through the whole body. *)
Lemma show_Some msg kind duration now st i :
  (show msg kind duration now st).1 = Some i ->
  i = sequence st + 1
  /\ (show msg kind duration now st).2
       = trimOverflow (appended (trim msg) kind duration now st).
Proof.
  rewrite show_unfold.
  destruct (negb (truthy (trim msg))); [discriminate|].
  destruct (hasSimilarVisibleNotice kind (trim msg) st); [discriminate|].
  simpl. intros [= <-]. split; reflexivity.
Qed.

Lemma remove_keeps_timeout i t st :
  wf st -> t ∈ timeouts st -> noticeId t ≠ i -> t ∈ timeouts (remove i st).
Proof.
  intros (_ & _ & Htm & _ & Hinj) Ht Hne. rewrite Forall_forall in Htm.
  rewrite remove_timeouts. destruct (timerMap st !! i) as [h|] eqn:E; [|exact Ht].
  apply list_elem_of_filter. split; [|exact Ht].
  intros Heq. destruct (Htm t Ht) as [Hl _]. rewrite Heq in Hl.
  apply Hne. apply (Hinj _ _ _ Hl E).
Qed.

Lemma removeEach_keeps_timeout l t st :
  wf st -> t ∈ timeouts st -> noticeId t ∉ (id <$> l) -> t ∈ timeouts (removeEach l st).
Proof.
  unfold removeEach. revert st. induction l as [|a l IH]; intros st Hwf Ht Hn; [exact Ht|].
  rewrite fmap_cons, not_elem_of_cons in Hn. destruct Hn as [Hna Hnl].
  change (t ∈ timeouts (foldl (fun st item => remove (id item) st) (remove (id a) st) l)).
  apply IH; [apply remove_wf, Hwf | apply remove_keeps_timeout; assumption | exact Hnl].
Qed.

Lemma removeEach_timeouts_subset l t st :
  t ∈ timeouts (removeEach l st) -> t ∈ timeouts st.
Proof.
  unfold removeEach. revert st. induction l as [|a l IH]; intros st Ht; [exact Ht|].
  apply IH in Ht. rewrite remove_timeouts in Ht.
  destruct (timerMap st !! id a); [|exact Ht].
  apply list_elem_of_filter in Ht as [_ Ht]. exact Ht.
Qed.

End ShowFacts.

(** ** Claims about the notice store *)

Lemma reachable_runOps `{Host} ops st : reachable st -> reachable (runOps ops st).
Proof.
  intros Hr. induction ops as [|op ops IH]; [exact Hr|].
  simpl. apply reachable_step, IH.
Qed.

(** The items after [show] has appended and cut the list to five. *)
Lemma show_appended_items `{Host} msg kind duration now st :
  wf st ->
  NoticeStore.items (trimOverflow (appended (trim msg) kind duration now st))
  = drop (length (NoticeStore.items st) + 1 - 5)
      (NoticeStore.items st
       ++ [{| NoticeStore.id := NoticeStore.sequence st + 1;
              NoticeStore.message := trim msg;
              NoticeStore.type := kind |}]).
Proof.
  intros Hwf. rewrite trimOverflow_items by apply appended_wf, Hwf.
  simpl. rewrite length_app. simpl. reflexivity.
Qed.

Lemma last_drop_snoc {A} (l : list A) (x : A) k :
  (k <= length l)%nat -> last (drop k (l ++ [x])) = Some x.
Proof. intros Hk. rewrite drop_app_le by exact Hk. apply last_snoc. Qed.

(** C5. Store-level suppression: for a message whose trimmed form is not
    empty, when some visible item of type [kind] has a non-empty normalized
    message that equals, includes or is included in the non-empty normalized
    [msg], [show] returns [undefined] and leaves the store (items, timer map,
    sequence counter) as it was; otherwise it appends an item that carries the
    trimmed message and [kind] under the next id. *)
Theorem show_similar_visible `{Host} (msg : jsstring) (kind : NoticeType)
    (duration now : Z) (st : NoticeStore.Store) :
  reachable st -> trim msg <> [] ->
  let item := {| NoticeStore.id := NoticeStore.sequence st + 1;
                 NoticeStore.message := trim msg;
                 NoticeStore.type := kind |} in
  (similarVisible kind msg st ->
     NoticeStore.show msg kind duration now st = (None, st)) /\
  (~ similarVisible kind msg st ->
     (NoticeStore.show msg kind duration now st).1 = Some (NoticeStore.sequence st + 1)
     /\ NoticeStore.items (NoticeStore.show msg kind duration now st).2
         = drop (length (NoticeStore.items st) + 1 - 5) (NoticeStore.items st ++ [item])
     /\ last (NoticeStore.items (NoticeStore.show msg kind duration now st).2)
         = Some item).
Proof.
  intros Hr Hm item. split.
  - apply show_suppressed, Hm.
  - intros Hsim. rewrite show_appends by assumption. simpl.
    split; [reflexivity|].
    pose proof (show_appended_items msg kind duration now st (reachable_wf st Hr))
      as Hitems.
    split; [exact Hitems|].
    rewrite Hitems. apply last_drop_snoc. lia.
Qed.

Lemma show_similar_visible_witness :
  let st := @runOps asciiHost [OpShow (str "Saved") success 6000 0] NoticeStore.initial in
  @NoticeStore.show asciiHost (str " saved! ") success 6000 10 st = (None, st).
Proof.
  intros st.
  apply (proj1 (@show_similar_visible asciiHost (str " saved! ") success 6000 10 st
                  (@reachable_runOps asciiHost _ _ (@reachable_initial asciiHost))
                  ltac:(vm_compute; discriminate))).
  exists {| NoticeStore.id := 1; NoticeStore.message := str "Saved";
            NoticeStore.type := success |}.
  split; [left|]. split; [reflexivity|].
  split; [vm_compute; discriminate|]. split; [vm_compute; discriminate|].
  left. vm_compute. reflexivity.
Defined.

(** C6. Bounded notice list: [items.length <= 5] is preserved by every
    operation of the store; and when [show] appends a sixth item it removes
    the oldest one and clears its timer, so that exactly five remain. *)
Theorem items_bounded `{Host} :
  (forall op st,
     (length (NoticeStore.items st) <= 5)%nat ->
     (length (NoticeStore.items (applyOp op st)) <= 5)%nat) /\
  (forall st, reachable st -> (length (NoticeStore.items st) <= 5)%nat) /\
  (forall msg kind duration now st oldest rest i,
     reachable st ->
     NoticeStore.items st = oldest :: rest -> length (NoticeStore.items st) = 5%nat ->
     (NoticeStore.show msg kind duration now st).1 = Some i ->
     let st' := (NoticeStore.show msg kind duration now st).2 in
     NoticeStore.items st'
       = rest ++ [{| NoticeStore.id := i; NoticeStore.message := trim msg;
                     NoticeStore.type := kind |}]
     /\ length (NoticeStore.items st') = 5%nat
     /\ NoticeStore.timerMap st' !! NoticeStore.id oldest = None
     /\ Forall (fun t => NoticeStore.noticeId t <> NoticeStore.id oldest)
               (NoticeStore.timeouts st')).
Proof.
  split; [exact applyOp_bounded|]. split.
  - induction 1; [simpl; lia | apply applyOp_bounded; assumption].
  - intros msg kind duration now st oldest rest i Hr Hitems Hlen Hshow st'.
    apply show_Some in Hshow as [-> Hst']. subst st'. rewrite Hst'.
    pose proof (appended_wf (trim msg) kind duration now st (reachable_wf st Hr)) as Hwf.
    set (st1 := appended (trim msg) kind duration now st) in *.
    assert (Hit1 : NoticeStore.items st1
                   = oldest :: rest
                     ++ [{| NoticeStore.id := NoticeStore.sequence st + 1;
                            NoticeStore.message := trim msg;
                            NoticeStore.type := kind |}]).
    { subst st1. unfold appended. simpl. rewrite Hitems. reflexivity. }
    assert (Hlen1 : length (NoticeStore.items st1) = 6%nat).
    { subst st1. unfold appended. simpl. rewrite length_app, Hlen. reflexivity. }
    assert (Hres : NoticeStore.items (trimOverflow st1)
                   = rest ++ [{| NoticeStore.id := NoticeStore.sequence st + 1;
                                 NoticeStore.message := trim msg;
                                 NoticeStore.type := kind |}]).
    { rewrite trimOverflow_items by exact Hwf. rewrite Hlen1, Hit1. reflexivity. }
    split; [exact Hres|]. split.
    { rewrite Hres, length_app. rewrite Hitems in Hlen. simpl in *. lia. }
    split.
    { unfold trimOverflow. rewrite Hlen1, Hit1.
      change (5 <? 6)%nat with true. cbv iota.
      rewrite removeEach_timerMap.
      rewrite decide_True by (simpl; left). reflexivity. }
    pose proof (trimOverflow_wf st1 Hwf) as (_ & _ & Htm & _).
    destruct Hwf as (_ & Hnd & _). rewrite Hit1, fmap_cons, NoDup_cons in Hnd.
    destruct Hnd as [Hfresh _].
    rewrite Forall_forall in Htm. apply Forall_forall. intros t Ht Heq.
    destruct (Htm t Ht) as [_ Hin]. rewrite Hres, Heq in Hin. contradiction.
Qed.

Lemma items_bounded_witness :
  let st' := (@NoticeStore.show asciiHost (str "f") info 6000 50 fiveNotices).2 in
  (NoticeStore.message <$> NoticeStore.items st')
    = [str "b"; str "c"; str "d"; str "e"; str "f"]
  /\ length (NoticeStore.items st') = 5%nat
  /\ NoticeStore.timerMap st' !! 1 = None
  /\ Forall (fun t => NoticeStore.noticeId t <> 1) (NoticeStore.timeouts st').
Proof.
  intros st'.
  assert (Hi : NoticeStore.items fiveNotices =
    {| NoticeStore.id := 1; NoticeStore.message := str "a"; NoticeStore.type := info |}
    :: tail (NoticeStore.items fiveNotices)) by (vm_compute; reflexivity).
  assert (Hl : length (NoticeStore.items fiveNotices) = 5%nat) by (vm_compute; reflexivity).
  assert (Hs : (@NoticeStore.show asciiHost (str "f") info 6000 50 fiveNotices).1 = Some 6)
    by (vm_compute; reflexivity).
  destruct (proj2 (proj2 (@items_bounded asciiHost)) (str "f") info 6000 50 fiveNotices
              _ _ 6
              (@reachable_runOps asciiHost _ _ (@reachable_initial asciiHost))
              Hi Hl Hs) as (Hitems & Hlen & Hmap & Htm).
  fold st' in Hitems, Hlen, Hmap, Htm.
  split; [rewrite Hitems; vm_compute; reflexivity|]. split; [exact Hlen|].
  split; [exact Hmap | exact Htm].
Defined.

Section Timers.
Context `{Host}.
Import NoticeStore.

Lemma trimOverflow_timeouts_subset st t :
  t ∈ timeouts (trimOverflow st) -> t ∈ timeouts st.
Proof.
  unfold trimOverflow. destruct (5 <? length (items st))%nat; [|auto].
  apply removeEach_timeouts_subset.
Qed.

(** Only [show] registers a timer, and only the one for the notice it adds. *)
Lemma applyOp_timeouts op st t :
  t ∈ timeouts (applyOp op st) ->
  t ∈ timeouts st
  \/ exists msg kind duration now,
       op = OpShow msg kind duration now /\ 0 < duration
       /\ t = {| handle := nextHandle st; fireAt := now + duration;
                 noticeId := sequence st + 1 |}.
Proof.
  destruct op as [msg kind duration now | i | | | fired]; cbn [applyOp].
  - rewrite show_unfold.
    destruct (negb (truthy (trim msg))); [auto|].
    destruct (hasSimilarVisibleNotice kind (trim msg) st); [auto|].
    simpl. intros Ht. apply trimOverflow_timeouts_subset in Ht.
    unfold appended in Ht. simpl in Ht.
    destruct (Z.ltb_spec 0 duration) as [Hpos|_]; [|auto].
    apply elem_of_app in Ht as [Ht|Ht]; [auto|].
    apply list_elem_of_singleton in Ht. right. eauto 10.
  - rewrite remove_timeouts. destruct (timerMap st !! i); [|auto].
    intros Ht. apply list_elem_of_filter in Ht as [_ Ht]. auto.
  - unfold clear. destruct (items st) as [|first others]; [auto|].
    rewrite remove_timeouts. destruct (timerMap st !! id first); [|auto].
    intros Ht. apply list_elem_of_filter in Ht as [_ Ht]. auto.
  - unfold clearAll. simpl. intros Ht.
    destruct (clearAll_loop (items st) st) as (_ & _ & _ & Hsub).
    left. apply (Hsub t Ht).
  - unfold fire. destruct (bool_decide (fired ∈ timeouts st)); [|auto].
    rewrite remove_timeouts. simpl.
    destruct (timerMap st !! noticeId fired); intros Ht.
    + apply list_elem_of_filter in Ht as [_ Ht].
      apply list_elem_of_filter in Ht as [_ Ht]. auto.
    + apply list_elem_of_filter in Ht as [_ Ht]. auto.
Qed.

Lemma show_registers_timer msg kind duration now st i :
  wf st -> (show msg kind duration now st).1 = Some i -> 0 < duration ->
  let st' := (show msg kind duration now st).2 in
  let t := {| handle := nextHandle st; fireAt := now + duration; noticeId := i |} in
  t ∈ timeouts st' /\ timerMap st' !! i = Some (nextHandle st).
Proof.
  intros Hwf Hshow Hpos st' t.
  apply show_Some in Hshow as [-> Hst']. subst st'. rewrite Hst'.
  pose proof (appended_wf (trim msg) kind duration now st Hwf) as Hwf1.
  assert (Hd : (0 <? duration) = true) by (apply Z.ltb_lt; exact Hpos).
  assert (Ht : t ∈ timeouts (appended (trim msg) kind duration now st)).
  { unfold appended. simpl. rewrite Hd. apply elem_of_app. right. left. }
  assert (Hm : timerMap (appended (trim msg) kind duration now st) !! (sequence st + 1)
               = Some (nextHandle st)).
  { unfold appended. simpl. rewrite Hd. apply lookup_insert_eq. }
  unfold trimOverflow.
  destruct (Nat.ltb_spec 5 (length (items (appended (trim msg) kind duration now st))))
    as [Hlt|_]; [|split; assumption].
  assert (Hfresh : sequence st + 1
                   ∉ id <$> take (length (items (appended (trim msg) kind duration now st)) - 5)
                                 (items (appended (trim msg) kind duration now st))).
  { unfold appended in *. simpl in *. rewrite length_app in *. simpl in *.
    rewrite take_app_le by lia.
    intros Hin. apply list_elem_of_fmap in Hin as (x & Hx & Hin).
    apply elem_of_take in Hin as (k & Hk & _).
    destruct Hwf as (Hids & _). rewrite Forall_forall in Hids.
    assert (x ∈ items st) by (apply list_elem_of_lookup; eauto).
    specialize (Hids x ltac:(assumption)). lia. }
  split.
  - apply removeEach_keeps_timeout; assumption.
  - rewrite removeEach_timerMap, decide_False by exact Hfresh. exact Hm.
Qed.

End Timers.

(** C8, as the code has it. The store does arrange for work to run later:
    a [show] that adds a notice with a positive duration registers one timer
    with [window.setTimeout], due [duration] ms later, whose callback removes
    that notice, and records its handle in [timerMap]; when the timer fires
    the notice leaves the list. No other operation of the store registers a
    timer: [remove], [clear] and [clearAll] only cancel timers. *)
Theorem show_schedules_dismissal `{Host} :
  (forall msg kind duration now st i,
     reachable st ->
     (NoticeStore.show msg kind duration now st).1 = Some i -> 0 < duration ->
     let st' := (NoticeStore.show msg kind duration now st).2 in
     let t := {| NoticeStore.handle := NoticeStore.nextHandle st;
                 NoticeStore.fireAt := now + duration;
                 NoticeStore.noticeId := i |} in
     t ∈ NoticeStore.timeouts st'
     /\ NoticeStore.timerMap st' !! i = Some (NoticeStore.nextHandle st)
     /\ i ∈ (NoticeStore.id <$> NoticeStore.items st')
     /\ i ∉ (NoticeStore.id <$> NoticeStore.items (NoticeStore.fire t st'))) /\
  (forall op st t,
     t ∈ NoticeStore.timeouts (applyOp op st) ->
     t ∈ NoticeStore.timeouts st
     \/ exists msg kind duration now,
          op = OpShow msg kind duration now /\ 0 < duration
          /\ t = {| NoticeStore.handle := NoticeStore.nextHandle st;
                    NoticeStore.fireAt := now + duration;
                    NoticeStore.noticeId := NoticeStore.sequence st + 1 |}).
Proof.
  split; [|exact applyOp_timeouts].
  intros msg kind duration now st i Hr Hshow Hpos st' t.
  destruct (show_registers_timer msg kind duration now st i
              (reachable_wf st Hr) Hshow Hpos) as [Ht Hm].
  fold st' in Ht, Hm. fold t in Ht.
  split; [exact Ht|]. split; [exact Hm|]. split.
  - pose proof (show_wf msg kind duration now st (reachable_wf st Hr))
      as (_ & _ & Htm & _).
    fold st' in Htm. rewrite Forall_forall in Htm.
    destruct (Htm t Ht) as [_ Hin]. exact Hin.
  - unfold NoticeStore.fire. rewrite bool_decide_eq_true_2 by exact Ht.
    rewrite remove_items. intros Hin.
    apply list_elem_of_fmap in Hin as (x & Hx & Hin).
    apply list_elem_of_filter in Hin as [Hne _]. simpl in Hne. congruence.
Qed.

Lemma show_schedules_dismissal_witness :
  let st' := (@NoticeStore.show asciiHost (str "saved") success 6000 0
                NoticeStore.initial).2 in
  let t := {| NoticeStore.handle := 1; NoticeStore.fireAt := 0 + 6000;
              NoticeStore.noticeId := 1 |} in
  t ∈ NoticeStore.timeouts st'
  /\ NoticeStore.timerMap st' !! 1 = Some 1
  /\ 1 ∈ (NoticeStore.id <$> NoticeStore.items st')
  /\ 1 ∉ (NoticeStore.id <$> NoticeStore.items (NoticeStore.fire t st')).
Proof.
  apply (proj1 (@show_schedules_dismissal asciiHost) (str "saved") success 6000 0
           NoticeStore.initial 1 (@reachable_initial asciiHost)).
  - vm_compute. reflexivity.
  - lia.
Defined.

(** C8, as stated, fails: after one [show] a callback is waiting in the timer
    table of [window], and running it at its due time empties the list. *)
Lemma show_arranges_later_work :
  let st := (@NoticeStore.show asciiHost (str "saved") success 6000 0
               NoticeStore.initial).2 in
  NoticeStore.timeouts st
    = [{| NoticeStore.handle := 1; NoticeStore.fireAt := 6000;
          NoticeStore.noticeId := 1 |}]
  /\ NoticeStore.items (NoticeStore.runTimers 5999 st)
     = [{| NoticeStore.id := 1; NoticeStore.message := str "saved";
           NoticeStore.type := success |}]
  /\ NoticeStore.items (NoticeStore.runTimers 6000 st) = [].
Proof. vm_compute. repeat split; reflexivity. Qed.

(** ** A duplicate that arrives after the window *)





(** ** Page selection *)

Lemma num_ltb_ofZ a b : num_ltb (ofZ a) (ofZ b) = (a <? b).
Proof.
  unfold num_ltb, ofZ, Qle_bool, inject_Z. simpl. rewrite !Z.mul_1_r.
  rewrite Z.ltb_antisym. reflexivity.
Qed.

Lemma num_eqb_ofZ a b : num_eqb (ofZ a) (ofZ b) = (a =? b).
Proof.
  unfold num_eqb, ofZ, Qeq_bool, inject_Z. simpl. rewrite !Z.mul_1_r. reflexivity.
Qed.

Lemma Math_max_ofZ a b : Math_max (ofZ a) (ofZ b) = ofZ (Z.max a b).
Proof.
  unfold Math_max. change (isNaN (ofZ a) || isNaN (ofZ b)) with false. cbv iota.
  rewrite num_ltb_ofZ.
  destruct (Z.ltb_spec a b); f_equal; lia.
Qed.

Lemma Math_min_ofZ a b : Math_min (ofZ a) (ofZ b) = ofZ (Z.min a b).
Proof.
  unfold Math_min. change (isNaN (ofZ a) || isNaN (ofZ b)) with false. cbv iota.
  rewrite num_ltb_ofZ.
  destruct (Z.ltb_spec b a); f_equal; lia.
Qed.

Section Pages.
Context `{NumberHost}.

Lemma changePage_spec pg p :
  Coupons.changePage pg (ofZ p) = ofZ <$> changePageSpec pg p.
Proof.
  unfold Coupons.changePage, changePageSpec. rewrite !num_ltb_ofZ.
  destruct ((p <? 1) || (total_page pg <? p)); reflexivity.
Qed.

(** The target of a jump is the clamped floor of the parsed input. *)
Lemma jump_target raw tp :
  isNaN raw = false ->
  Math_min (Math_max (Math_floor raw) (ofZ 1)) (ofZ tp) = ofZ (clampPage raw tp).
Proof.
  destruct raw as [| | |q]; simpl; intros Hn; try discriminate.
  - change (Math_max NegInf (ofZ 1)) with (ofZ 1). apply Math_min_ofZ.
  - change (Math_max PosInf (ofZ 1)) with PosInf. reflexivity.
  - rewrite Math_max_ofZ, Math_min_ofZ. reflexivity.
Qed.

Lemma jumpToPage_spec pg input :
  Coupons.jumpToPage pg input = ofZ <$> jumpToPageSpec pg input.
Proof.
  unfold Coupons.jumpToPage, jumpToPageSpec.
  destruct input as [|c input]; [reflexivity|]. simpl negb. cbv iota.
  destruct (isNaN (Number (c :: input))) eqn:Hn.
  - destruct (Number (c :: input)); try discriminate. reflexivity.
  - rewrite jump_target by exact Hn. rewrite num_eqb_ofZ, changePage_spec.
    destruct (Number (c :: input)) as [| | |q]; try discriminate;
      match goal with |- context [?t =? page pg] => destruct (t =? page pg) end;
      reflexivity.
Qed.

Lemma clampPage_range raw tp : 1 <= tp -> 1 <= clampPage raw tp <= tp.
Proof. intros Htp. destruct raw; simpl; lia. Qed.

(** With no page at all the clamped target is below 1 and is rejected. *)
Lemma jumpToPage_no_pages pg input :
  total_page pg < 1 -> ofZ <$> jumpToPageSpec pg input = None.
Proof.
  intros Htp. unfold jumpToPageSpec, changePageSpec.
  destruct input as [|c input]; [reflexivity|].
  destruct (Number (c :: input)) as [| | |q]; [reflexivity| | |];
    match goal with |- context [?t =? page pg] => destruct (t =? page pg) end;
    try reflexivity;
    match goal with
    | |- context [(?t <? 1) || _] =>
        replace (t <? 1) with true by (symmetry; apply Z.ltb_lt; simpl; lia)
    end; reflexivity.
Qed.

End Pages.

(** C7. The two views select pages alike: [jumpToPage] and [changePage] of
    [Coupons.vue] and of [UserLoginLogs.vue] agree on every pagination state
    and every input; [jumpToPage] does nothing for an empty or NaN input,
    clamps the floor of the parsed input into [1 .. total_page], does nothing
    when that target is the current page, and [changePage] fetches no page
    below 1 or above [total_page]. *)
Theorem page_selection_agrees `{NumberHost} (pg : Pagination) (input : jsstring) :
  Coupons.jumpToPage pg input = UserLoginLogs.jumpToPage pg input
  /\ (forall p, Coupons.changePage pg p = UserLoginLogs.changePage pg p)
  /\ Coupons.jumpToPage pg input = ofZ <$> jumpToPageSpec pg input
  /\ (forall p : Z, Coupons.changePage pg (ofZ p) = ofZ <$> changePageSpec pg p)
  /\ (forall raw, 1 <= total_page pg ->
        1 <= clampPage raw (total_page pg) <= total_page pg)
  /\ (total_page pg < 1 -> Coupons.jumpToPage pg input = None).
Proof.
  split; [reflexivity|]. split; [reflexivity|].
  split; [apply jumpToPage_spec|]. split; [apply changePage_spec|].
  split; [intros raw; apply clampPage_range|].
  intros Htp. rewrite jumpToPage_spec. apply jumpToPage_no_pages, Htp.
Qed.

Lemma page_selection_agrees_witness :
  let pg := {| page := 2; page_size := 20; total := 93; total_page := 5 |} in
  @Coupons.jumpToPage digitsHost pg (str "42") = Some (ofZ 5)
  /\ @UserLoginLogs.jumpToPage digitsHost pg (str "42") = Some (ofZ 5)
  /\ 1 <= clampPage (ofZ 42) 5 <= 5.
Proof.
  intros pg.
  destruct (@page_selection_agrees digitsHost pg (str "42"))
    as (Hsame & _ & Hspec & _ & Hrange & _).
  split; [rewrite Hspec; reflexivity|].
  split; [rewrite <- Hsame, Hspec; reflexivity|].
  apply (Hrange (ofZ 42)). simpl. lia.
Defined.

(** ** The normalizer *)

Section Matcher.
Context {A : Type}.

Lemma star_loop_all (p : N -> bool) (s : jsstring) :
  star_loop p Some s = Some (dropWhile p s).
Proof.
  induction s as [|c s IH]; simpl; [reflexivity|].
  destruct (p c); [|reflexivity]. rewrite IH. reflexivity.
Qed.

(** A greedy star gives nothing back when what follows it cannot start with
    a member of the starred class. *)
Lemma star_loop_then (p : N -> bool) (k : jsstring -> option A) (s : jsstring) :
  (forall c r, p c = true -> k (c :: r) = None) ->
  star_loop p k s = k (dropWhile p s).
Proof.
  intros Hk. induction s as [|c s IH]; simpl; [reflexivity|].
  destruct (p c) eqn:Hc; [|reflexivity].
  rewrite IH. destruct (k (dropWhile p s)); [reflexivity|]. apply Hk, Hc.
Qed.

Lemma exec_lit (w s : jsstring) (k : jsstring -> option A) :
  exec true (lit w) s k = afterWord w s ≫= k.
Proof.
  revert s. induction w as [|c w IH]; intros s; [reflexivity|].
  destruct s as [|x s]; [reflexivity|]. simpl.
  destruct (canonicalize c =? canonicalize x)%N; [apply IH | reflexivity].
Qed.

Lemma exec_alts_lit (ws : list jsstring) (s : jsstring) (k k' : jsstring -> option A) :
  (forall r, k r = k' r) ->
  exec true (alts (lit <$> ws)) s k = firstSome (fun w => afterWord w s ≫= k') ws.
Proof.
  intros Hk. induction ws as [|w ws IH].
  - destruct s; reflexivity.
  - assert (Hw : exec true (lit w) s k = afterWord w s ≫= k').
    { rewrite exec_lit. destruct (afterWord w s); simpl; [apply Hk | reflexivity]. }
    destruct ws as [|w' ws].
    + simpl. simpl in Hw. rewrite Hw. destruct (afterWord w s ≫= k'); reflexivity.
    + change (exec true (alts (lit <$> w :: w' :: ws)) s k)
        with (match exec true (lit w) s k with
              | Some res => Some res
              | None => exec true (alts (lit <$> w' :: ws)) s k
              end).
      rewrite Hw, IH. reflexivity.
Qed.

End Matcher.

Lemma space_not_separator c : isSpace c = true -> isSeparator c = false.
Proof.
  intros Hs. unfold isSeparator.
  destruct (N.eqb_spec c 0x3A) as [->|_]; [discriminate|].
  destruct (N.eqb_spec c 0xFF1A) as [->|_]; [discriminate|].
  destruct (N.eqb_spec c 0x2D) as [->|_]; [discriminate|].
  reflexivity.
Qed.

(** What follows the alternation: [\s*[:：\-]\s*]. *)
Lemma exec_separator (s : jsstring) :
  exec true (Seq (StarCls isSpace) (Seq (Cls isSeparator) (StarCls isSpace))) s Some
  = afterSeparator s.
Proof.
  simpl. rewrite star_loop_then.
  - unfold afterSeparator. destruct (dropWhile isSpace s) as [|c r]; [reflexivity|].
    destruct (isSeparator c); [apply star_loop_all | reflexivity].
  - intros c r Hc. rewrite (space_not_separator c Hc). reflexivity.
Qed.

Lemma replaceAnchored_failurePrefix v :
  replaceAnchored true failurePrefix v = stripFailurePrefix v.
Proof.
  unfold replaceAnchored, stripFailurePrefix, failurePrefix.
  change (exec true (Seq ?r1 ?r2) v Some)
    with (exec true r1 v (fun s' => exec true r2 s' Some)).
  rewrite (exec_alts_lit failureWords v _ afterSeparator) by apply exec_separator.
  reflexivity.
Qed.

Lemma replaceAllCls_filter p s :
  replaceAllCls p s = List.filter (fun c => negb (p c)) s.
Proof.
  induction s as [|c s IH]; simpl; [reflexivity|].
  rewrite IH. destruct (p c); reflexivity.
Qed.

Lemma filter_out_nil p (s : jsstring) :
  List.filter (fun c => negb (p c)) s = [] <-> forallb p s = true.
Proof.
  induction s as [|c s IH]; simpl; [tauto|].
  destruct (p c); simpl; [exact IH|]. split; discriminate.
Qed.

Lemma simplifyMessage_spec `{Host} s : Notify.simplifyMessage s = simplifySpec s.
Proof.
  unfold Notify.simplifyMessage, simplifySpec.
  destruct (trim s) as [|c v] eqn:E; [reflexivity|].
  simpl negb. cbv iota.
  rewrite replaceAnchored_failurePrefix, replaceAllCls_filter. reflexivity.
Qed.

(** The pipeline of the specification against the one read off the
    patterns: the tables written as text are the tables of code units, and
    the two ways of ignoring case agree. *)
Lemma equalIgnoringCase_canonicalize (a b : N) :
  equalIgnoringCase a b = (canonicalize a =? canonicalize b)%N.
Proof.
  unfold equalIgnoringCase, canonicalize, isAsciiLetter.
  repeat match goal with
         | |- context [(?x <=? ?y)%N] => destruct (N.leb_spec x y)
         end;
  cbn [andb orb];
  repeat match goal with
         | |- context [(?x =? ?y)%N] => destruct (N.eqb_spec x y)
         end;
  cbn [andb orb]; try reflexivity; exfalso; lia.
Qed.

Lemma withoutWord_afterWord (w s : jsstring) : withoutWord w s = afterWord w s.
Proof.
  revert s. induction w as [|c w IH]; intros s; [reflexivity|].
  destruct s as [|x s]; [reflexivity|]. simpl.
  rewrite equalIgnoringCase_canonicalize, IH. reflexivity.
Qed.

Lemma listedSeparators_isSeparator (c : N) :
  existsb (N.eqb c) listedSeparators = isSeparator c.
Proof.
  change listedSeparators with [0x3A; 0xFF1A; 0x2D]%N.
  unfold isSeparator. simpl. rewrite orb_false_r, orb_assoc. reflexivity.
Qed.

Lemma withoutSeparator_afterSeparator (s : jsstring) :
  withoutSeparator s = afterSeparator s.
Proof.
  unfold withoutSeparator, afterSeparator.
  destruct (dropWhile isSpace s) as [|c r]; [reflexivity|].
  rewrite listedSeparators_isSeparator. reflexivity.
Qed.

Lemma firstSome_ext {A B} (f g : A -> option B) (l : list A) :
  (forall a, f a = g a) -> firstSome f l = firstSome g l.
Proof.
  intros Hfg. induction l as [|a l IH]; simpl; [reflexivity|].
  rewrite Hfg, IH. reflexivity.
Qed.

Lemma withoutPrefix_stripFailurePrefix (v : jsstring) :
  withoutPrefix v = stripFailurePrefix v.
Proof.
  unfold withoutPrefix, stripFailurePrefix.
  change listedPrefixes with failureWords.
  rewrite (firstSome_ext _ (fun w => afterWord w v ≫= afterSeparator)); [reflexivity|].
  intros w. rewrite withoutWord_afterWord.
  destruct (afterWord w v) as [r|]; simpl; [apply withoutSeparator_afterSeparator | reflexivity].
Qed.

Lemma isListedRemovable_isRemovable (c : N) : isListedRemovable c = isRemovable c.
Proof.
  unfold isListedRemovable, isRemovable.
  change listedPunctuation with (asciiPunct ++ widePunct). reflexivity.
Qed.

Lemma forallb_listed_removable (v : jsstring) :
  forallb isListedRemovable v = forallb isRemovable v.
Proof.
  induction v as [|c v IH]; simpl; [reflexivity|].
  rewrite isListedRemovable_isRemovable, IH. reflexivity.
Qed.

Lemma normalizedAsListed_simplifySpec `{Host} (s : jsstring) :
  normalizedAsListed s = simplifySpec s.
Proof.
  unfold normalizedAsListed, simplifySpec.
  destruct (trim s) as [|c v]; [reflexivity|].
  rewrite withoutPrefix_stripFailurePrefix.
  induction (toLowerCase (stripFailurePrefix (c :: v))) as [|x l IH]; simpl; [reflexivity|].
  rewrite isListedRemovable_isRemovable, IH. reflexivity.
Qed.

(** C4. Fuzzy text normalization: [simplifyMessage(s)], which runs the two
    regular expressions of the source, is the trimmed [s] without one leading
    failure prefix (one of the twelve words of [listedPrefixes], in any case)
    and its separator (colon, full-width colon or dash, with the white space
    around it), lower-cased, with every white space and every character of
    [listedPunctuation] deleted. It is the empty string exactly when [s]
    trims to empty or only removable characters are left after the prefix is
    stripped, for a lower-casing that neither produces nor consumes a
    removable character. *)
Theorem simplifyMessage_normalizes `{Host} (s : jsstring) :
  Notify.simplifyMessage s = normalizedAsListed s
  /\ ((forall v, forallb isListedRemovable (toLowerCase v) = forallb isListedRemovable v) ->
      (Notify.simplifyMessage s = []
       <-> trim s = []
           \/ forallb isListedRemovable (withoutPrefix (trim s)) = true)).
Proof.
  split; [rewrite simplifyMessage_spec, normalizedAsListed_simplifySpec; reflexivity|].
  intros Hlower.
  rewrite simplifyMessage_spec, <- normalizedAsListed_simplifySpec.
  unfold normalizedAsListed.
  destruct (trim s) as [|c v] eqn:E.
  - split; [left|]; reflexivity.
  - rewrite filter_out_nil, Hlower. split; [right; assumption|].
    intros [Hnil|Hall]; [discriminate | exact Hall].
Qed.

(** The ASCII host satisfies the assumption made on lower-casing. *)

Ltac split_bools :=
  repeat match goal with
         | H : (_ || _) = true |- _ => apply orb_prop in H as [H|H]
         | H : (_ && _) = true |- _ => apply andb_prop in H as [? H]
         | H : (_ <=? _)%N = true |- _ => apply N.leb_le in H
         | H : (_ =? _)%N = true |- _ => apply N.eqb_eq in H
         end.

Lemma removable_not_letter c : isRemovable c = true -> isAsciiLetter c = false.
Proof.
  intros Hr. apply not_true_is_false. intros Hl.
  unfold isRemovable in Hr. apply orb_prop in Hr as [Hs|Hp].
  - unfold isSpace in Hs. unfold isAsciiLetter in Hl. split_bools; lia.
  - apply existsb_exists in Hp as (x & Hin & Heq). apply N.eqb_eq in Heq. subst x.
    assert (Hall : forallb (fun x => negb (isAsciiLetter x)) (asciiPunct ++ widePunct) = true)
      by (vm_compute; reflexivity).
    rewrite forallb_forall in Hall. specialize (Hall c Hin).
    rewrite Hl in Hall. discriminate.
Qed.

Lemma asciiLower_removable c : isRemovable (asciiLower c) = isRemovable c.
Proof.
  unfold asciiLower. destruct ((0x41 <=? c) && (c <=? 0x5A))%N eqn:E; [|reflexivity].
  assert (H1 : isRemovable c = false).
  { apply not_true_is_false. intros Hr. apply removable_not_letter in Hr.
    unfold isAsciiLetter in Hr. rewrite E in Hr. discriminate. }
  assert (H2 : isRemovable (c + 0x20) = false).
  { apply not_true_is_false. intros Hr. apply removable_not_letter in Hr.
    unfold isAsciiLetter in Hr. split_bools.
    assert (Hlow : ((0x61 <=? c + 0x20) && (c + 0x20 <=? 0x7A))%N = true).
    { apply andb_true_intro. split; apply N.leb_le; lia. }
    rewrite Hlow, orb_true_r in Hr. discriminate. }
  rewrite H1, H2. reflexivity.
Qed.

Lemma asciiHost_lower_removable v :
  forallb isRemovable (@toLowerCase asciiHost v) = forallb isRemovable v.
Proof.
  simpl. induction v as [|c v IH]; simpl; [reflexivity|].
  rewrite asciiLower_removable, IH. reflexivity.
Qed.

Lemma asciiHost_lower_listed v :
  forallb isListedRemovable (@toLowerCase asciiHost v) = forallb isListedRemovable v.
Proof.
  rewrite !forallb_listed_removable. apply asciiHost_lower_removable.
Qed.

(** [Request Failed] in mixed case before a full-width colon is stripped,
    and the dash and the full-width exclamation mark are deleted; after
    上傳失敗 and its dash nothing but punctuation is left. *)
Lemma simplifyMessage_normalizes_witness :
  @Notify.simplifyMessage asciiHost (text "  Request Failed ： Time-out！  ") = str "timeout"
  /\ @Notify.simplifyMessage asciiHost (text " 上傳失敗 - 。…  ") = [].
Proof.
  split.
  - etransitivity;
      [apply (proj1 (@simplifyMessage_normalizes asciiHost
                       (text "  Request Failed ： Time-out！  ")))
      | vm_compute; reflexivity].
  - apply (proj2 (@simplifyMessage_normalizes asciiHost (text " 上傳失敗 - 。…  "))
             asciiHost_lower_listed).
    right. vm_compute. reflexivity.
Defined.

(** ** Concrete runs *)

Example simplify_strips_prefix :
  @Notify.simplifyMessage asciiHost (str "  Request Failed : Time-out!  ") = str "timeout".
Proof. reflexivity. Qed.

Example simplify_keeps_other_prefix :
  @Notify.simplifyMessage asciiHost (str "request failedx: y") = str "requestfailedxy".
Proof. reflexivity. Qed.

(** 上传失败：Oops, with the full-width colon. *)
Example simplify_wide_prefix :
  @Notify.simplifyMessage asciiHost
    ([0x4E0A; 0x4F20; 0x5931; 0x8D25; 0xFF1A]%N ++ str "Oops") = str "oops".
Proof. reflexivity. Qed.

Example simplify_only_punctuation :
  @Notify.simplifyMessage asciiHost (str " ?!... ") = [].
Proof. reflexivity. Qed.

Example jump_rounds_down_and_clamps :
  let pg := {| page := 1; page_size := 20; total := 93; total_page := 5 |} in
  @Coupons.jumpToPage digitsHost pg (str "3") = Some (ofZ 3)
  /\ @Coupons.jumpToPage digitsHost pg (str "1") = None
  /\ @Coupons.jumpToPage digitsHost pg (str "x") = None
  /\ @Coupons.jumpToPage digitsHost pg [] = None
  /\ @UserLoginLogs.jumpToPage digitsHost pg (str "900") = Some (ofZ 5).
Proof. repeat split; reflexivity. Qed.

(** * Further properties of the code *)

(** ** The notice store: timers are tracked *)
Section Tracked.
Context `{Host}.
Import NoticeStore.

(** [remove i] restores the tracking of timers even when the entry of [i]
    itself has lost its timer, as it has while the timer of [i] fires. *)
Lemma remove_tracked_except i st :
  (forall a b h, timerMap st !! a = Some h -> timerMap st !! b = Some h -> a = b) ->
  (forall j h, j ≠ i -> timerMap st !! j = Some h ->
     j ∈ (id <$> items st)
     /\ exists t, t ∈ timeouts st /\ handle t = h /\ noticeId t = j) ->
  tracked (remove i st).
Proof.
  intros Hinj Htr j h Hj.
  rewrite remove_timerMap in Hj. apply lookup_delete_Some in Hj as [Hne Hj].
  destruct (Htr j h ltac:(congruence) Hj) as [Hin (t & Ht & Hh & Hn)].
  rewrite remove_items, remove_timeouts. split.
  - apply list_elem_of_fmap in Hin as (x & Hx & Hin).
    apply list_elem_of_fmap. exists x. split; [exact Hx|].
    apply list_elem_of_filter. split; [congruence | exact Hin].
  - exists t. split; [|split; assumption].
    destruct (timerMap st !! i) as [hi|] eqn:E; [|exact Ht].
    apply list_elem_of_filter. split; [|exact Ht].
    intros Heq. apply Hne. apply (Hinj i j hi E). congruence.
Qed.

Lemma remove_tracked i st : wf st -> tracked st -> tracked (remove i st).
Proof.
  intros (_ & _ & _ & _ & Hinj) Htr. apply remove_tracked_except; [exact Hinj|].
  intros j h _ Hj. apply Htr, Hj.
Qed.

Lemma removeEach_tracked l st : wf st -> tracked st -> tracked (removeEach l st).
Proof.
  unfold removeEach. revert st.
  induction l as [|a l IH]; intros st Hwf Htr; [exact Htr|].
  simpl. apply IH; [apply remove_wf, Hwf | apply remove_tracked; assumption].
Qed.

Lemma appended_tracked m kind duration now st :
  tracked st -> tracked (appended m kind duration now st).
Proof.
  intros Htr j h. unfold appended. simpl. rewrite fmap_app.
  assert (Hold : timerMap st !! j = Some h ->
            j ∈ (id <$> items st) ++ (id <$> [{| id := sequence st + 1; message := m;
                                                  type := kind |}])
            /\ exists t, t ∈ timeouts st /\ handle t = h /\ noticeId t = j).
  { intros Hj. destruct (Htr j h Hj) as [Hin Ht]. split; [|exact Ht].
    apply elem_of_app. left. exact Hin. }
  destruct (0 <? duration).
  - intros Hj. apply lookup_insert_Some in Hj as [[<- <-] | [_ Hj]].
    + split; [apply elem_of_app; right; left|].
      eexists. split; [apply elem_of_app; right; left|]. split; reflexivity.
    + destruct (Hold Hj) as [Hin (t & Ht & Hh & Hn)]. split; [exact Hin|].
      exists t. split; [apply elem_of_app; left; exact Ht|]. split; assumption.
  - exact Hold.
Qed.

Lemma applyOp_tracked op st : wf st -> tracked st -> tracked (applyOp op st).
Proof.
  intros Hwf Htr. destruct op as [msg kind duration now | i | | | fired]; cbn [applyOp].
  - rewrite show_unfold.
    destruct (negb (truthy (trim msg))); [exact Htr|].
    destruct (hasSimilarVisibleNotice kind (trim msg) st); [exact Htr|].
    simpl. unfold trimOverflow.
    destruct (5 <? length (items (appended (trim msg) kind duration now st)))%nat.
    + apply removeEach_tracked; [apply appended_wf, Hwf | apply appended_tracked, Htr].
    + apply appended_tracked, Htr.
  - apply remove_tracked; assumption.
  - unfold clear. destruct (items st); [exact Htr | apply remove_tracked; assumption].
  - intros j h Hj. unfold clearAll in Hj. simpl in Hj.
    rewrite lookup_empty in Hj. discriminate.
  - unfold fire. destruct (bool_decide_reflect (fired ∈ timeouts st)) as [Hin|_];
      [|exact Htr].
    destruct Hwf as (_ & _ & Htm & _ & Hinj). rewrite Forall_forall in Htm.
    destruct (Htm fired Hin) as [Hf _].
    apply remove_tracked_except; simpl; [exact Hinj|].
    intros j h Hne Hj. destruct (Htr j h Hj) as [Hj_in (t & Ht & Hh & Hn)].
    split; [exact Hj_in|]. exists t. split; [|split; assumption].
    apply list_elem_of_filter. split; [|exact Ht].
    intros Heq. apply Hne. apply (Hinj j (noticeId fired) h Hj). congruence.
Qed.

Lemma reachable_tracked st : reachable st -> tracked st.
Proof.
  induction 1 as [|op st Hr IH].
  - intros i h Hl. unfold initial in Hl. simpl in Hl.
    rewrite lookup_empty in Hl. discriminate.
  - apply applyOp_tracked; [apply reachable_wf, Hr | exact IH].
Qed.

End Tracked.

(** ** The notice store: ids *)
Section Ordered.
Context `{Host}.
Import NoticeStore.

Lemma StronglySorted_ids_filter (P : NoticeItem -> Prop) `{forall x, Decision (P x)} l :
  StronglySorted Z.lt (id <$> l) -> StronglySorted Z.lt (id <$> filter P l).
Proof.
  induction l as [|a l IH]; [done|].
  rewrite fmap_cons, StronglySorted_cons. intros [Ha Hl].
  rewrite filter_cons. destruct (decide (P a)); [|auto].
  rewrite fmap_cons, StronglySorted_cons. split; [|auto].
  rewrite Forall_forall in Ha. apply Forall_forall. intros x Hx. apply Ha.
  apply list_elem_of_fmap in Hx as (y & -> & Hy).
  apply list_elem_of_filter in Hy as [_ Hy]. apply list_elem_of_fmap_2, Hy.
Qed.

Lemma ordered_filter (P : NoticeItem -> Prop) `{forall x, Decision (P x)} st st' :
  ordered st -> items st' = filter P (items st) -> sequence st' = sequence st ->
  ordered st'.
Proof.
  intros [Hs Hb] Hi Hq. unfold ordered. rewrite Hi, Hq. split.
  - apply StronglySorted_ids_filter, Hs.
  - rewrite Forall_forall in Hb. apply Forall_forall. intros x Hx.
    apply list_elem_of_filter in Hx as [_ Hx]. auto.
Qed.

Lemma appended_ordered m kind duration now st :
  0 <= sequence st -> ordered st -> ordered (appended m kind duration now st).
Proof.
  intros Hq [Hs Hb]. rewrite Forall_forall in Hb.
  unfold ordered, appended. simpl. split.
  - rewrite fmap_app. apply StronglySorted_app_2.
    + intros x1 x2 H1 H2. apply list_elem_of_singleton in H2. subst x2.
      apply list_elem_of_fmap in H1 as (y & -> & Hy). specialize (Hb y Hy). simpl. lia.
    + exact Hs.
    + repeat constructor.
  - apply Forall_app. split.
    + apply Forall_forall. intros x Hx. specialize (Hb x Hx). lia.
    + apply Forall_singleton. simpl. lia.
Qed.

Lemma applyOp_sequence op st : sequence st <= sequence (applyOp op st).
Proof.
  destruct op as [msg kind duration now | i | | | fired]; cbn [applyOp].
  - rewrite show_unfold.
    destruct (negb (truthy (trim msg))); [simpl; lia|].
    destruct (hasSimilarVisibleNotice kind (trim msg) st); [simpl; lia|].
    simpl. rewrite trimOverflow_sequence. unfold appended. simpl. lia.
  - rewrite remove_sequence. lia.
  - unfold clear. destruct (items st); [lia | rewrite remove_sequence; lia].
  - unfold clearAll. simpl.
    destruct (clearAll_loop (items st) st) as (_ & Hs & _). simpl in Hs. rewrite Hs. lia.
  - unfold fire. destruct (bool_decide (fired ∈ timeouts st)); [|lia].
    rewrite remove_sequence. simpl. lia.
Qed.

Lemma applyOp_ordered op st :
  0 <= sequence st -> ordered st -> ordered (applyOp op st).
Proof.
  intros Hq Hord. destruct op as [msg kind duration now | i | | | fired]; cbn [applyOp].
  - rewrite show_unfold.
    destruct (negb (truthy (trim msg))); [exact Hord|].
    destruct (hasSimilarVisibleNotice kind (trim msg) st); [exact Hord|].
    simpl. unfold trimOverflow.
    destruct (5 <? length (items (appended (trim msg) kind duration now st)))%nat.
    + eapply ordered_filter;
        [apply appended_ordered; eassumption
        | apply removeEach_items | apply removeEach_sequence].
    + apply appended_ordered; assumption.
  - eapply ordered_filter; [exact Hord | apply remove_items | apply remove_sequence].
  - unfold clear. destruct (items st) eqn:E; [exact Hord|].
    eapply ordered_filter; [exact Hord | apply remove_items | apply remove_sequence].
  - unfold ordered, clearAll. simpl. split; constructor.
  - unfold fire. destruct (bool_decide (fired ∈ timeouts st)); [|exact Hord].
    eapply ordered_filter;
      [exact Hord | rewrite remove_items; reflexivity
      | rewrite remove_sequence; reflexivity].
Qed.

Lemma reachable_ordered st : reachable st -> 0 <= sequence st /\ ordered st.
Proof.
  induction 1 as [|op st Hr [Hq Hord]].
  - split; [simpl; lia|]. unfold ordered. simpl. split; constructor.
  - split; [pose proof (applyOp_sequence op st); lia|].
    apply applyOp_ordered; assumption.
Qed.

End Ordered.

(** X1. No timer leaks: in every state the store can reach, [timerMap] maps a
    notice to a handle exactly when [window] holds an active timer with
    that handle for that notice, and every such notice is visible. *)
Theorem timers_tracked `{Host} (st : NoticeStore.Store) :
  reachable st ->
  forall i h,
    (NoticeStore.timerMap st !! i = Some h
     <-> exists t, t ∈ NoticeStore.timeouts st
                    /\ NoticeStore.handle t = h /\ NoticeStore.noticeId t = i)
    /\ (NoticeStore.timerMap st !! i = Some h ->
        i ∈ (NoticeStore.id <$> NoticeStore.items st)).
Proof.
  intros Hr i h.
  pose proof (reachable_tracked st Hr) as Htr.
  pose proof (reachable_wf st Hr) as (_ & _ & Htm & _).
  rewrite Forall_forall in Htm. split; [split|].
  - intros Hl. apply (Htr i h Hl).
  - intros (t & Ht & <- & <-). apply (Htm t Ht).
  - intros Hl. apply (Htr i h Hl).
Qed.

Lemma timers_tracked_witness :
  (NoticeStore.timerMap fiveNotices !! 3 = Some 3
   <-> exists t, t ∈ NoticeStore.timeouts fiveNotices
                  /\ NoticeStore.handle t = 3 /\ NoticeStore.noticeId t = 3)
  /\ (NoticeStore.timerMap fiveNotices !! 3 = Some 3 ->
      3 ∈ (NoticeStore.id <$> NoticeStore.items fiveNotices)).
Proof.
  apply (@timers_tracked asciiHost fiveNotices
           (@reachable_runOps asciiHost _ _ (@reachable_initial asciiHost)) 3 3).
Defined.

(** X2. Ids are issued in increasing order and never reused: in every reachable
    state the visible ids grow strictly along the list and lie between 1 and
    the counter, no operation lowers the counter, and an id returned by
    [show] is above every visible id. *)
Theorem ids_increase `{Host} (st : NoticeStore.Store) :
  reachable st ->
  StronglySorted Z.lt (NoticeStore.id <$> NoticeStore.items st)
  /\ Forall (fun it => 0 < NoticeStore.id it <= NoticeStore.sequence st)
            (NoticeStore.items st)
  /\ (forall op, NoticeStore.sequence st <= NoticeStore.sequence (applyOp op st))
  /\ (forall msg kind duration now i,
        (NoticeStore.show msg kind duration now st).1 = Some i ->
        NoticeStore.sequence (NoticeStore.show msg kind duration now st).2 = i
        /\ Forall (fun it => NoticeStore.id it < i) (NoticeStore.items st)).
Proof.
  intros Hr. destruct (reachable_ordered st Hr) as [Hq [Hs Hb]].
  split; [exact Hs|]. split; [exact Hb|]. split; [intros op; apply applyOp_sequence|].
  intros msg kind duration now i Hshow.
  apply show_Some in Hshow as [-> Hst]. rewrite Hst, trimOverflow_sequence. split.
  - reflexivity.
  - rewrite Forall_forall in Hb. apply Forall_forall. intros x Hx.
    specialize (Hb x Hx). lia.
Qed.

Lemma ids_increase_witness :
  StronglySorted Z.lt (NoticeStore.id <$> NoticeStore.items fiveNotices)
  /\ Forall (fun it => 0 < NoticeStore.id it <= NoticeStore.sequence fiveNotices)
            (NoticeStore.items fiveNotices).
Proof.
  destruct (@ids_increase asciiHost fiveNotices
              (@reachable_runOps asciiHost _ _ (@reachable_initial asciiHost)))
    as (Hs & Hb & _).
  split; [exact Hs | exact Hb].
Defined.

(** ** The notice store: removing notices *)
Section Removal.
Context `{Host}.
Import NoticeStore.

Lemma store_eta st :
  {| items := items st; timerMap := timerMap st; sequence := sequence st;
     timeouts := timeouts st; nextHandle := nextHandle st |} = st.
Proof. destruct st; reflexivity. Qed.

Lemma remove_absent i st :
  wf st -> tracked st -> i ∉ (id <$> items st) -> remove i st = st.
Proof.
  intros Hwf Htr Hi. unfold remove.
  destruct (timerMap st !! i) as [h|] eqn:E.
  - destruct (Htr i h E) as [Hin _]. contradiction.
  - rewrite filter_all; [apply store_eta|].
    intros x Hx Heq. apply Hi. rewrite <- Heq. apply list_elem_of_fmap_2, Hx.
Qed.

Lemma remove_clears_timers i st :
  wf st -> Forall (fun t => noticeId t ≠ i) (timeouts (remove i st)).
Proof.
  intros Hwf. pose proof (remove_wf i st Hwf) as (_ & _ & Htm & _).
  rewrite Forall_forall in Htm. apply Forall_forall. intros t Ht Heq.
  destruct (Htm t Ht) as [_ Hin]. rewrite Heq, remove_items in Hin.
  apply list_elem_of_fmap in Hin as (x & Hx & Hin).
  apply list_elem_of_filter in Hin as [Hne _]. congruence.
Qed.

End Removal.

(** X3. [remove(id)] takes away everything that belongs to [id] and nothing
    else: the item, its [timerMap] entry and its active timer go, the other
    items keep their order, their entries and their timers; and for an id
    that is not visible [remove] changes nothing. *)
Theorem remove_exactly `{Host} (i : Z) (st : NoticeStore.Store) :
  reachable st ->
  let st' := NoticeStore.remove i st in
  NoticeStore.items st' = filter (fun item => NoticeStore.id item ≠ i) (NoticeStore.items st)
  /\ NoticeStore.timerMap st' !! i = None
  /\ Forall (fun t => NoticeStore.noticeId t ≠ i) (NoticeStore.timeouts st')
  /\ (forall j, j ≠ i -> NoticeStore.timerMap st' !! j = NoticeStore.timerMap st !! j)
  /\ (forall t, t ∈ NoticeStore.timeouts st -> NoticeStore.noticeId t ≠ i ->
        t ∈ NoticeStore.timeouts st')
  /\ (i ∉ (NoticeStore.id <$> NoticeStore.items st) -> st' = st).
Proof.
  intros Hr st'. subst st'.
  pose proof (reachable_wf st Hr) as Hwf.
  split; [apply remove_items|].
  split; [rewrite remove_timerMap; apply lookup_delete_eq|].
  split; [apply remove_clears_timers, Hwf|].
  split; [intros j Hj; rewrite remove_timerMap; apply lookup_delete_ne; congruence|].
  split; [intros t Ht Hn; apply remove_keeps_timeout; assumption|].
  apply remove_absent; [exact Hwf | apply reachable_tracked, Hr].
Qed.

Lemma remove_exactly_witness :
  let st' := NoticeStore.remove 3 fiveNotices in
  (NoticeStore.message <$> NoticeStore.items st') = [str "a"; str "b"; str "d"; str "e"]
  /\ NoticeStore.timerMap st' !! 3 = None
  /\ NoticeStore.remove 9 fiveNotices = fiveNotices.
Proof.
  intros st'.
  destruct (@remove_exactly asciiHost 3 fiveNotices
              (@reachable_runOps asciiHost _ _ (@reachable_initial asciiHost)))
    as (Hitems & Hmap & _).
  fold st' in Hitems, Hmap.
  split; [rewrite Hitems; vm_compute; reflexivity|]. split; [exact Hmap|].
  apply (@remove_exactly asciiHost 9 fiveNotices
           (@reachable_runOps asciiHost _ _ (@reachable_initial asciiHost))).
  vm_compute. intros Hin.
  repeat (apply elem_of_cons in Hin as [Hin|Hin]; [discriminate|]).
  apply elem_of_nil in Hin. exact Hin.
Defined.

(** X4. [clear()] dismisses the oldest notice and only that one: the list loses
    its head, whose [timerMap] entry and timer go with it; on an empty list
    [clear] changes nothing. *)
Theorem clear_oldest `{Host} (st : NoticeStore.Store) :
  reachable st ->
  NoticeStore.items (NoticeStore.clear st) = tail (NoticeStore.items st)
  /\ (NoticeStore.items st = [] -> NoticeStore.clear st = st)
  /\ (forall first, head (NoticeStore.items st) = Some first ->
        NoticeStore.timerMap (NoticeStore.clear st) !! NoticeStore.id first = None
        /\ Forall (fun t => NoticeStore.noticeId t ≠ NoticeStore.id first)
                  (NoticeStore.timeouts (NoticeStore.clear st))).
Proof.
  intros Hr. pose proof (reachable_wf st Hr) as Hwf.
  unfold NoticeStore.clear. destruct (NoticeStore.items st) as [|first rest] eqn:E.
  - split; [rewrite E; reflexivity|]. split; [reflexivity|]. intros f Hf. discriminate.
  - split; [|split; [discriminate|]].
    + rewrite remove_items, E.
      destruct Hwf as (_ & Hnd & _). rewrite E, fmap_cons, NoDup_cons in Hnd.
      destruct Hnd as [Hfresh _].
      rewrite filter_cons_False by (intros Hne; apply Hne; reflexivity).
      simpl. apply filter_all. intros x Hx Heq. apply Hfresh.
      rewrite <- Heq. apply list_elem_of_fmap_2, Hx.
    + intros f [= <-]. split.
      * rewrite remove_timerMap. apply lookup_delete_eq.
      * apply remove_clears_timers, Hwf.
Qed.

Lemma clear_oldest_witness :
  (NoticeStore.message <$> NoticeStore.items (NoticeStore.clear fiveNotices))
    = [str "b"; str "c"; str "d"; str "e"].
Proof.
  destruct (@clear_oldest asciiHost fiveNotices
              (@reachable_runOps asciiHost _ _ (@reachable_initial asciiHost)))
    as (Hitems & _).
  rewrite Hitems. vm_compute. reflexivity.
Defined.

(** X5. [clearAll()] leaves no notice, no [timerMap] entry and no active timer,
    but it keeps the counter: the next notice gets a new id, and it is shown
    whatever was visible before. *)
Theorem clearAll_resets `{Host} (st : NoticeStore.Store) :
  reachable st ->
  NoticeStore.clearAll st
    = {| NoticeStore.items := []; NoticeStore.timerMap := ∅;
         NoticeStore.sequence := NoticeStore.sequence st;
         NoticeStore.timeouts := [];
         NoticeStore.nextHandle := NoticeStore.nextHandle st |}
  /\ (forall msg kind duration now,
        trim msg <> [] ->
        (NoticeStore.show msg kind duration now (NoticeStore.clearAll st)).1
          = Some (NoticeStore.sequence st + 1)).
Proof.
  intros Hr.
  assert (Heq : NoticeStore.clearAll st
                = {| NoticeStore.items := []; NoticeStore.timerMap := ∅;
                     NoticeStore.sequence := NoticeStore.sequence st;
                     NoticeStore.timeouts := [];
                     NoticeStore.nextHandle := NoticeStore.nextHandle st |}).
  { pose proof (clearAll_timeouts st (reachable_wf st Hr)) as Ht.
    destruct (clearAll_loop (NoticeStore.items st) st) as (_ & Hs & Hn & _).
    simpl in Hs, Hn. unfold NoticeStore.clearAll in *. simpl in Ht.
    rewrite Ht, Hs, Hn. reflexivity. }
  split; [exact Heq|].
  intros msg kind duration now Hm. rewrite Heq, show_unfold.
  apply truthy_nonempty in Hm. rewrite Hm. simpl.
  unfold NoticeStore.hasSimilarVisibleNotice. simpl.
  destruct (negb (truthy (NoticeStore.simplifyNoticeMessage (trim msg)))); reflexivity.
Qed.

Lemma clearAll_resets_witness :
  NoticeStore.clearAll fiveNotices
    = {| NoticeStore.items := []; NoticeStore.timerMap := ∅;
         NoticeStore.sequence := 5; NoticeStore.timeouts := [];
         NoticeStore.nextHandle := 6 |}
  /\ (@NoticeStore.show asciiHost (str "a") info 6000 60
        (NoticeStore.clearAll fiveNotices)).1 = Some 6.
Proof.
  destruct (@clearAll_resets asciiHost fiveNotices
              (@reachable_runOps asciiHost _ _ (@reachable_initial asciiHost)))
    as (Heq & Hshow).
  split; [exact Heq|].
  apply (Hshow (str "a") info 6000 60). vm_compute. discriminate.
Defined.

(** ** The notice store: timers that fire *)
Section Firing.
Context `{Host}.
Import NoticeStore.

(** In a well-formed store two active timers have the same handle exactly
    when they belong to the same notice. *)
Lemma handle_iff_notice st t t' :
  wf st -> t ∈ timeouts st -> t' ∈ timeouts st ->
  (handle t' = handle t <-> noticeId t' = noticeId t).
Proof.
  intros (_ & _ & Htm & _ & Hinj) Ht Ht'. rewrite Forall_forall in Htm.
  destruct (Htm t Ht) as [Hl _]. destruct (Htm t' Ht') as [Hl' _]. split.
  - intros Heq. rewrite Heq in Hl'. apply (Hinj _ _ _ Hl' Hl).
  - intros Heq. rewrite Heq in Hl'. congruence.
Qed.

Lemma fire_step st0 done st t :
  wf st0 -> t ∈ timeouts st0 -> firedOn st0 done st ->
  firedOn st0 (noticeId t :: done) (fire t st).
Proof.
  intros Hwf Ht (Hi & Hts & Hm).
  destruct (decide (noticeId t ∈ done)) as [Hdone|Hnew].
  - assert (Hgone : t ∉ timeouts st).
    { rewrite Hts. intros Hin. apply list_elem_of_filter in Hin as [Hn _]. contradiction. }
    unfold fire. rewrite bool_decide_eq_false_2 by exact Hgone.
    split; [|split].
    + rewrite Hi. apply filter_ext_in. intros x _. rewrite not_elem_of_cons.
      split; [|tauto]. intros Hx. split; [congruence | exact Hx].
    + rewrite Hts. apply filter_ext_in. intros x _. rewrite not_elem_of_cons.
      split; [|tauto]. intros Hx. split; [congruence | exact Hx].
    + intros j Hj. apply Hm. rewrite not_elem_of_cons in Hj. tauto.
  - assert (Hstill : t ∈ timeouts st).
    { rewrite Hts. apply list_elem_of_filter. split; assumption. }
    assert (Hentry : timerMap st !! noticeId t = Some (handle t)).
    { rewrite (Hm _ Hnew). destruct Hwf as (_ & _ & Htm & _).
      rewrite Forall_forall in Htm. apply (Htm t Ht). }
    unfold fire. rewrite bool_decide_eq_true_2 by exact Hstill.
    split; [|split].
    + rewrite remove_items. simpl. rewrite Hi, list_filter_filter.
      apply filter_ext_in. intros x _. rewrite not_elem_of_cons. tauto.
    + rewrite remove_timeouts. simpl. rewrite Hentry, Hts, !list_filter_filter.
      apply filter_ext_in. intros x Hx. rewrite not_elem_of_cons.
      pose proof (handle_iff_notice st0 t x Hwf Ht Hx). tauto.
    + intros j Hj. rewrite not_elem_of_cons in Hj. destruct Hj as [Hne Hj].
      rewrite remove_timerMap. simpl. rewrite lookup_delete_ne by congruence.
      apply Hm, Hj.
Qed.

Lemma fire_all st0 due :
  wf st0 -> (forall t, t ∈ due -> t ∈ timeouts st0) ->
  forall done st, firedOn st0 done st ->
  firedOn st0 (rev (noticeId <$> due) ++ done) (foldl (fun st t => fire t st) st due).
Proof.
  intros Hwf. induction due as [|t due IH]; intros Hdue done st Hf; [exact Hf|].
  simpl. rewrite <- app_assoc. simpl.
  apply IH; [intros x Hx; apply Hdue; right; exact Hx|].
  apply fire_step; [exact Hwf | apply Hdue; left | exact Hf].
Qed.

Lemma runTimers_effect now st :
  wf st ->
  items (runTimers now st) = filter (fun it => id it ∉ dueIds now st) (items st)
  /\ timeouts (runTimers now st)
     = filter (fun t => noticeId t ∉ dueIds now st) (timeouts st).
Proof.
  intros Hwf. unfold runTimers.
  destruct (fire_all st (filter (fun t => fireAt t <= now) (timeouts st)) Hwf
              ltac:(intros t Ht; apply list_elem_of_filter in Ht as [_ Ht]; exact Ht)
              [] st) as (Hi & Hts & _).
  { split; [|split].
    - symmetry. apply filter_all. intros x _. apply not_elem_of_nil.
    - symmetry. apply filter_all. intros x _. apply not_elem_of_nil.
    - reflexivity. }
  rewrite app_nil_r in Hi, Hts.
  assert (Hrev : forall (y : Z) l, y ∈ rev l <-> y ∈ l).
  { intros y l. rewrite !list_elem_of_In. symmetry. apply in_rev. }
  split.
  - rewrite Hi. apply filter_ext_in. intros x _. unfold dueIds.
    rewrite Hrev. reflexivity.
  - rewrite Hts. apply filter_ext_in. intros x _. unfold dueIds.
    rewrite Hrev. reflexivity.
Qed.

End Firing.

(** X6. When the timers that are due at [now] have fired, the notices they belong
    to are gone and all the others are left in their order; no timer that is
    due is left active. *)
Theorem runTimers_dismisses_due `{Host} (now : Z) (st : NoticeStore.Store) :
  reachable st ->
  let st' := NoticeStore.runTimers now st in
  NoticeStore.items st'
    = filter (fun it => NoticeStore.id it ∉ dueIds now st) (NoticeStore.items st)
  /\ Forall (fun t => now < NoticeStore.fireAt t) (NoticeStore.timeouts st').
Proof.
  intros Hr st'. subst st'.
  destruct (runTimers_effect now st (reachable_wf st Hr)) as [Hi Hts].
  split; [exact Hi|]. rewrite Hts. apply Forall_forall. intros t Ht.
  apply list_elem_of_filter in Ht as [Hn Ht].
  destruct (Z.lt_ge_cases now (NoticeStore.fireAt t)) as [Hlt|Hge]; [exact Hlt|].
  exfalso. apply Hn. unfold dueIds. apply list_elem_of_fmap_2.
  apply list_elem_of_filter. split; [lia | exact Ht].
Qed.

Lemma runTimers_dismisses_due_witness :
  (NoticeStore.message <$> NoticeStore.items (NoticeStore.runTimers 6015 fiveNotices))
    = [str "c"; str "d"; str "e"]
  /\ Forall (fun t => 6015 < NoticeStore.fireAt t)
            (NoticeStore.timeouts (NoticeStore.runTimers 6015 fiveNotices)).
Proof.
  destruct (@runTimers_dismisses_due asciiHost 6015 fiveNotices
              (@reachable_runOps asciiHost _ _ (@reachable_initial asciiHost)))
    as (Hitems & Hts).
  split; [rewrite Hitems; vm_compute; reflexivity | exact Hts].
Defined.

(** X7. The life of a notice: one that [show] adds at [now] with a positive
    duration is still in the list as long as the clock is below
    [now + duration] and is gone once the timers due at [now + duration]
    have fired; one added with a duration of zero or less is never removed
    by a timer. (No other operation is run in between.) *)
Theorem notice_lifetime `{Host} (msg : jsstring) (kind : NoticeType)
    (duration now : Z) (st : NoticeStore.Store) (i : Z) :
  reachable st ->
  (NoticeStore.show msg kind duration now st).1 = Some i ->
  forall later,
    i ∈ (NoticeStore.id
           <$> NoticeStore.items
                 (NoticeStore.runTimers later (NoticeStore.show msg kind duration now st).2))
    <-> duration <= 0 \/ later < now + duration.
Proof.
  intros Hr Hshow later.
  pose proof (show_wf msg kind duration now st (reachable_wf st Hr)) as Hwf'.
  pose proof (reachable_wf st Hr) as Hwf.
  assert (Hvisible : i ∈ (NoticeStore.id
                            <$> NoticeStore.items (NoticeStore.show msg kind duration now st).2)).
  { destruct (show_Some _ _ _ _ _ _ Hshow) as [-> Hst]. rewrite Hst.
    rewrite show_appended_items by exact Hwf.
    apply list_elem_of_fmap.
    exists {| NoticeStore.id := NoticeStore.sequence st + 1;
              NoticeStore.message := trim msg; NoticeStore.type := kind |}.
    split; [reflexivity|]. apply last_Some_elem_of, last_drop_snoc. lia. }
  assert (Hmine : forall t,
            t ∈ NoticeStore.timeouts (NoticeStore.show msg kind duration now st).2 ->
            NoticeStore.noticeId t = i ->
            0 < duration /\ NoticeStore.fireAt t = now + duration).
  { intros t Ht Hn.
    destruct (show_Some _ _ _ _ _ _ Hshow) as [Hi _].
    destruct (applyOp_timeouts (OpShow msg kind duration now) st t Ht)
      as [Hold | (m' & k' & d' & n' & [= <- <- <- <-] & Hpos & ->)].
    - destruct Hwf as (Hids & _ & Htm & _).
      rewrite Forall_forall in Htm. rewrite Forall_forall in Hids.
      destruct (Htm t Hold) as [_ Hin].
      apply list_elem_of_fmap in Hin as (x & Hx & Hin).
      specialize (Hids x Hin). lia.
    - split; [exact Hpos | reflexivity]. }
  destruct (runTimers_effect later _ Hwf') as [Hitems _]. rewrite Hitems.
  split.
  - intros Hin. apply list_elem_of_fmap in Hin as (x & -> & Hx).
    apply list_elem_of_filter in Hx as [Hnd _].
    destruct (Z.le_gt_cases duration 0) as [Hle|Hpos]; [left; exact Hle|]. right.
    destruct (Z.lt_ge_cases later (now + duration)) as [Hlt|Hge]; [exact Hlt|].
    exfalso. apply Hnd.
    destruct (show_registers_timer msg kind duration now st _ Hwf Hshow ltac:(lia))
      as [Ht _].
    unfold dueIds. apply list_elem_of_fmap.
    eexists. split; [|apply list_elem_of_filter; split; [|exact Ht]]; simpl; [reflexivity|lia].
  - intros Hcase. apply list_elem_of_fmap in Hvisible as (x & Hx & Hin).
    apply list_elem_of_fmap. exists x. split; [exact Hx|].
    apply list_elem_of_filter. split; [|exact Hin].
    intros Hdue. unfold dueIds in Hdue.
    apply list_elem_of_fmap in Hdue as (t & Ht & Hdue).
    apply list_elem_of_filter in Hdue as [Hfire Hdue].
    destruct (Hmine t Hdue ltac:(congruence)) as [Hpos Hat]. lia.
Qed.

Lemma notice_lifetime_witness :
  let st' := (@NoticeStore.show asciiHost (str "saved") success 6000 100
                NoticeStore.initial).2 in
  (1 ∈ (NoticeStore.id <$> NoticeStore.items (NoticeStore.runTimers 6099 st'))
   <-> 6000 <= 0 \/ 6099 < 100 + 6000)
  /\ (1 ∈ (NoticeStore.id <$> NoticeStore.items (NoticeStore.runTimers 6100 st'))
      <-> 6000 <= 0 \/ 6100 < 100 + 6000).
Proof.
  split;
    apply (@notice_lifetime asciiHost (str "saved") success 6000 100
             NoticeStore.initial 1 (@reachable_initial asciiHost) eq_refl).
Defined.

(** X8. [show] returns [undefined] exactly for a blank message or when a
    similar notice of the kind is visible, and then it changes nothing; when
    it returns an id, that id is the counter plus one and becomes the counter. *)
Theorem show_undefined_iff `{Host} (msg : jsstring) (kind : NoticeType)
    (duration now : Z) (st : NoticeStore.Store) :
  ((NoticeStore.show msg kind duration now st).1 = None
   <-> trim msg = [] \/ similarVisible kind msg st)
  /\ ((NoticeStore.show msg kind duration now st).1 = None ->
      (NoticeStore.show msg kind duration now st).2 = st)
  /\ (forall i, (NoticeStore.show msg kind duration now st).1 = Some i ->
        i = NoticeStore.sequence st + 1
        /\ NoticeStore.sequence (NoticeStore.show msg kind duration now st).2 = i).
Proof.
  split; [|split].
  - rewrite <- hasSimilar_spec, show_unfold.
    destruct (trim msg) as [|c v] eqn:E; simpl.
    + split; [left|]; reflexivity.
    + rewrite <- E.
      destruct (NoticeStore.hasSimilarVisibleNotice kind (trim msg) st); simpl.
      * split; [right|]; reflexivity.
      * split; [discriminate|]. intros [Hnil|Hsim]; [rewrite E in Hnil|]; discriminate.
  - rewrite show_unfold.
    destruct (negb (truthy (trim msg))); [reflexivity|].
    destruct (NoticeStore.hasSimilarVisibleNotice kind (trim msg) st);
      [reflexivity | discriminate].
  - intros i Hshow. destruct (show_Some _ _ _ _ _ _ Hshow) as [-> Hst].
    split; [reflexivity|]. rewrite Hst. apply trimOverflow_sequence.
Qed.

Lemma show_undefined_iff_witness :
  (@NoticeStore.show asciiHost (str "   ") error 6000 0 fiveNotices).2 = fiveNotices
  /\ NoticeStore.sequence
       (@NoticeStore.show asciiHost (str "f") error 6000 0 fiveNotices).2 = 6.
Proof.
  split.
  - apply (proj1 (proj2 (@show_undefined_iff asciiHost (str "   ") error 6000 0
                           fiveNotices))).
    vm_compute. reflexivity.
  - apply (proj2 (proj2 (@show_undefined_iff asciiHost (str "f") error 6000 0
                           fiveNotices)) 6).
    vm_compute. reflexivity.
Defined.

(** ** [notify.ts]: fallback text and notice types *)

(** X9. A missing or blank message is replaced by the fallback text of the key:
    the call behaves as if that text had been passed; and when the fallback
    is blank too, nothing is recorded and nothing is shown. *)
Theorem pushNotice_fallback `{Host} (message : option jsstring) (ty : NoticeType)
    (key : string) (now : Z) (w : Notify.Dedupe * NoticeStore.Store) :
  match message with Some m => trim m = [] | None => True end ->
  (trim (i18n_t key) <> [] ->
     Notify.pushNotice message ty key now w
       = Notify.pushNotice (Some (i18n_t key)) ty key now w)
  /\ (trim (i18n_t key) = [] ->
      Notify.pushNotice message ty key now w = (Notify.Shown None, w)).
Proof.
  intros Hblank. destruct w as [d store].
  assert (Hcontent :
            match message with
            | Some m => if truthy m && truthy (trim m) then m else i18n_t key
            | None => i18n_t key
            end = i18n_t key).
  { destruct message as [m|]; [|reflexivity].
    rewrite Hblank, andb_false_r. reflexivity. }
  split.
  - intros Hf. unfold Notify.pushNotice. rewrite Hcontent.
    assert (Ht : truthy (i18n_t key) && truthy (trim (i18n_t key)) = true).
    { apply truthy_nonempty in Hf. rewrite Hf.
      destruct (i18n_t key); [discriminate | reflexivity]. }
    rewrite Ht. reflexivity.
  - intros Hf. unfold Notify.pushNotice. rewrite Hcontent.
    unfold Notify.shouldSkip. rewrite Hf. simpl.
    rewrite show_unfold, Hf. reflexivity.
Qed.

Lemma pushNotice_fallback_witness :
  @Notify.notifyError asciiHost (Some (str "  ")) 10 (Notify.initial, NoticeStore.initial)
  = @Notify.notifyError asciiHost (Some (str "common.api.requestFailed")) 10
      (Notify.initial, NoticeStore.initial).
Proof.
  apply (proj1 (@pushNotice_fallback asciiHost (Some (str "  ")) error
                  "common.api.requestFailed" 10 (Notify.initial, NoticeStore.initial)
                  eq_refl)).
  vm_compute. discriminate.
Defined.

(** X10. De-duplication never crosses notice types: a non-blank message whose
    type differs from the last recorded one, and from the type of every
    visible notice, is always shown. *)
Theorem other_type_is_shown `{Host} (ty : NoticeType) (m : jsstring) (key : string)
    (now : Z) (d : Notify.Dedupe) (store : NoticeStore.Store) :
  trim m <> [] -> reachable store ->
  Notify.lastType d <> Some ty ->
  Forall (fun item => NoticeStore.type item <> ty) (NoticeStore.items store) ->
  (Notify.pushNotice (Some m) ty key now (d, store)).1
    = Notify.Shown (Some (NoticeStore.sequence store + 1))
  /\ last (NoticeStore.items (Notify.pushNotice (Some m) ty key now (d, store)).2.2)
     = Some {| NoticeStore.id := NoticeStore.sequence store + 1;
               NoticeStore.message := trim m; NoticeStore.type := ty |}.
Proof.
  intros Hm Hr Hty Hitems.
  assert (Hskip : (Notify.shouldSkip ty m now d).1 = false).
  { rewrite shouldSkip_answer_total.
    rewrite (bool_decide_eq_false_2 _ Hty), andb_false_r. reflexivity. }
  assert (Hsim : ~ similarVisible ty m store).
  { intros (item & Hin & Hk & _). rewrite Forall_forall in Hitems.
    apply (Hitems item Hin Hk). }
  rewrite pushNotice_unfold by exact Hm. rewrite Hskip.
  rewrite (show_appends m ty 6000 now store Hm Hsim). simpl.
  split; [reflexivity|].
  rewrite (show_appended_items m ty 6000 now store (reachable_wf store Hr)).
  apply last_drop_snoc. lia.
Qed.

Lemma other_type_is_shown_witness :
  let w := (@Notify.notifyAt asciiHost 0 error (str "saved") 
              (Notify.initial, NoticeStore.initial)).2 in
  (@Notify.pushNotice asciiHost (Some (str "saved")) success "k" 5 w).1
    = Notify.Shown (Some 2).
Proof.
  intros w.
  apply (@other_type_is_shown asciiHost success (str "saved") "k" 5 w.1 w.2).
  - vm_compute. discriminate.
  - apply (@reachable_runOps asciiHost
             [OpShow (str "saved") error 6000 0] NoticeStore.initial
             (@reachable_initial asciiHost)).
  - vm_compute. discriminate.
  - vm_compute. repeat constructor. discriminate.
Defined.

(** X11. The normalized form holds no white space and none of the listed
    punctuation, whatever the input and the host's lower-casing. *)
Theorem simplifyMessage_clean `{Host} (s : jsstring) :
  Forall (fun c => isRemovable c = false) (Notify.simplifyMessage s)
  /\ Forall (fun c => isRemovable c = false) (NoticeStore.simplifyNoticeMessage s).
Proof.
  rewrite simplifyNoticeMessage_eq.
  assert (Hc : Forall (fun c => isRemovable c = false) (Notify.simplifyMessage s)).
  { unfold Notify.simplifyMessage.
    destruct (negb (truthy (trim s))); [constructor|].
    rewrite replaceAllCls_filter. apply Forall_forall. intros c Hc.
    apply list_elem_of_In, filter_In in Hc as [_ Hc].
    apply negb_true_iff in Hc. exact Hc. }
  split; exact Hc.
Qed.

(** ** Page selection: what is fetched *)

(** X12. A jump never fetches a page outside [1 .. total_page], never a
    fractional page and never the page that is already shown. *)
Theorem jump_fetches_valid_page `{NumberHost} (pg : Pagination) (input : jsstring)
    (p : JSNumber) :
  Coupons.jumpToPage pg input = Some p \/ UserLoginLogs.jumpToPage pg input = Some p ->
  exists z, p = ofZ z /\ 1 <= z <= total_page pg /\ z <> page pg.
Proof.
  intros Hj.
  assert (Hc : Coupons.jumpToPage pg input = Some p) by (destruct Hj; assumption).
  rewrite jumpToPage_spec in Hc. unfold jumpToPageSpec in Hc.
  destruct input as [|c input]; [discriminate|].
  destruct (Number (c :: input)) as [| | |q]; [discriminate| | |];
    match type of Hc with
    | context [?t =? page pg] =>
        destruct (Z.eqb_spec t (page pg)) as [|Hne]; [discriminate|];
        unfold changePageSpec in Hc;
        destruct (Z.ltb_spec t 1); [discriminate|];
        destruct (Z.ltb_spec (total_page pg) t); [discriminate|];
        simpl in Hc; injection Hc as <-; exists t; repeat split; (lia || exact Hne)
    end.
Qed.

Lemma jump_fetches_valid_page_witness :
  exists z, ofZ 5 = ofZ z /\ 1 <= z <= 5 /\ z <> 2.
Proof.
  apply (@jump_fetches_valid_page digitsHost
           {| page := 2; page_size := 20; total := 93; total_page := 5 |}
           (str "42") (ofZ 5)).
  left. reflexivity.
Defined.

(** ** [Coupons.vue]: scope ids *)
Section ScopeIds.
Import CouponScope.

Lemma digit_not_separator c :
  (0x30 <= c <= 0x39)%N -> isScopeSeparator c = false.
Proof.
  intros Hc. apply not_true_is_false. intros Hs.
  unfold isScopeSeparator, isSpace in Hs. split_bools; lia.
Qed.

Lemma digitChar_range d : 0 <= d < 10 -> (0x30 <= digitChar d <= 0x39)%N.
Proof. intros Hd. unfold digitChar. lia. Qed.

Lemma digits_go_digits fuel n acc :
  Forall (fun c => (0x30 <= c <= 0x39)%N) acc ->
  Forall (fun c => (0x30 <= c <= 0x39)%N) (digits_go fuel n acc).
Proof.
  revert n acc. induction fuel as [|fuel IH]; intros n acc Hacc; [exact Hacc|].
  simpl.
  assert (Hd : Forall (fun c => (0x30 <= c <= 0x39)%N) (digitChar (n mod 10) :: acc)).
  { constructor; [|exact Hacc]. apply digitChar_range, Z.mod_pos_bound. lia. }
  destruct (n / 10 =? 0); [exact Hd | apply IH, Hd].
Qed.

Lemma digits_go_nonempty fuel n acc :
  fuel <> O \/ acc <> [] -> digits_go fuel n acc <> [].
Proof.
  revert n acc. induction fuel as [|fuel IH]; intros n acc Hne.
  - destruct Hne as [Hne|Hne]; [contradiction | exact Hne].
  - simpl. destruct (n / 10 =? 0); [discriminate|]. apply IH. right. discriminate.
Qed.

Lemma decimal_token n :
  0 < n -> decimal n <> [] /\ Forall (fun c => isScopeSeparator c = false) (decimal n).
Proof.
  intros Hn. unfold decimal.
  destruct (Z.ltb_spec n 0) as [Hneg|_]; [lia|]. split.
  - apply digits_go_nonempty. left. discriminate.
  - eapply Forall_impl; [apply digits_go_digits; constructor|].
    intros c Hc. apply digit_not_separator, Hc.
Qed.

(** Reading a piece that holds no separator. *)
Lemma splitRuns_piece p t cur rest b :
  Forall (fun c => p c = false) t -> t <> [] \/ b = false ->
  splitRuns p b cur (t ++ rest) = splitRuns p false (rev t ++ cur) rest.
Proof.
  revert cur b. induction t as [|c t IH]; intros cur b Ht Hb.
  - destruct Hb as [Hb| ->]; [contradiction | reflexivity].
  - apply Forall_cons in Ht as [Hc Ht]. simpl. rewrite Hc.
    rewrite IH by (auto). rewrite <- app_assoc. reflexivity.
Qed.

Lemma split_join (pieces : list jsstring) b :
  pieces <> [] ->
  Forall (fun t => t <> [] /\ Forall (fun c => isScopeSeparator c = false) t) pieces ->
  splitRuns isScopeSeparator b [] (join (str ", ") pieces) = pieces.
Proof.
  revert b. induction pieces as [|t pieces IH]; intros b Hne Hall; [contradiction|].
  apply Forall_cons in Hall as [[Ht Hsep] Hall].
  destruct pieces as [|t2 pieces].
  - simpl. rewrite <- (app_nil_r t) at 1.
    rewrite splitRuns_piece by (auto). simpl.
    rewrite app_nil_r, rev_involutive. reflexivity.
  - change (join (str ", ") (t :: t2 :: pieces))
      with (t ++ str ", " ++ join (str ", ") (t2 :: pieces)).
    rewrite splitRuns_piece by (auto).
    rewrite app_nil_r. simpl. rewrite rev_involutive. f_equal.
    apply IH; [discriminate | exact Hall].
Qed.

(** A string of separators splits into empty pieces only. *)
Lemma split_separators p s b :
  forallb p s = true -> Forall (fun t => t = []) (splitRuns p b [] s).
Proof.
  revert b. induction s as [|c s IH]; intros b Hs; simpl.
  - repeat constructor.
  - simpl in Hs. apply andb_prop in Hs as [Hc Hs]. rewrite Hc.
    destruct b; [apply IH, Hs|]. constructor; [reflexivity | apply IH, Hs].
Qed.

Lemma filter_positive_ids (l : list Z) :
  Forall (fun n => 0 < n) l ->
  List.filter (fun item => isFinite item && num_ltb (ofZ 0) item) (ofZ <$> l)
  = ofZ <$> l.
Proof.
  induction 1 as [|n l Hn Hl IH]; [reflexivity|].
  rewrite fmap_cons.
  change (List.filter ?f (ofZ n :: ?r))
    with (if f (ofZ n) then ofZ n :: List.filter f r else List.filter f r).
  cbv beta. change (isFinite (ofZ n)) with true. rewrite num_ltb_ofZ.
  replace (0 <? n) with true by (symmetry; apply Z.ltb_lt; exact Hn).
  change (true && true) with true. cbv iota. rewrite IH. reflexivity.
Qed.

End ScopeIds.

(** X13. The edit form reads back the ids it was filled with: for positive ids
    (safe integers), [parseScopeIDs(formatScopeInput(ids))] is the list of
    these ids, given that the host parses the decimal text of such an
    integer to it and the empty string to 0. *)
Theorem scope_ids_round_trip `{NumberHost} `{CouponScope.JSONHost} (ids : list Z) :
  Number [] = ofZ 0 ->
  (forall n, 0 < n < 2 ^ 53 -> Number (CouponScope.decimal n) = ofZ n) ->
  Forall (fun n => 0 < n < 2 ^ 53) ids ->
  CouponScope.parseScopeIDs (CouponScope.formatScopeInput (CouponScope.ScopeArray ids))
    = ofZ <$> ids.
Proof.
  intros Hempty Hdec Hids.
  unfold CouponScope.parseScopeIDs, CouponScope.formatScopeInput, CouponScope.splitCls.
  destruct ids as [|n ids].
  - simpl. rewrite Hempty. reflexivity.
  - rewrite split_join.
    + assert (Hnum : Number <$> (CouponScope.decimal <$> n :: ids) = ofZ <$> n :: ids).
      { induction Hids as [|m l Hm Hl IH]; [reflexivity|].
        rewrite !fmap_cons, (Hdec m Hm), IH. reflexivity. }
      rewrite Hnum. apply filter_positive_ids.
      eapply Forall_impl; [exact Hids|]. intros m [Hm _]. exact Hm.
    + discriminate.
    + apply Forall_fmap. eapply Forall_impl; [exact Hids|].
      intros m [Hm _]. apply decimal_token, Hm.
Qed.

(** The digits host reads the decimal text of a positive integer back. *)
Lemma digitsValue_digitChar a d rest :
  0 <= d < 10 ->
  digitsValue a (CouponScope.digitChar d :: rest) = digitsValue (10 * a + d) rest.
Proof.
  intros Hd. unfold CouponScope.digitChar. simpl.
  assert (Hr : ((0x30 <=? 0x30 + Z.to_N d) && (0x30 + Z.to_N d <=? 0x39))%N = true).
  { apply andb_true_intro. split; apply N.leb_le; lia. }
  rewrite Hr. f_equal. lia.
Qed.

Lemma digitsValue_digits_go fuel n acc :
  0 <= n < 10 ^ Z.of_nat fuel ->
  digitsValue 0 (CouponScope.digits_go fuel n acc) = digitsValue n acc.
Proof.
  revert n acc. induction fuel as [|fuel IH]; intros n acc Hn.
  - simpl in *. replace n with 0 by lia. reflexivity.
  - cbn [CouponScope.digits_go].
    pose proof (Z.mod_pos_bound n 10 ltac:(lia)) as Hmod.
    pose proof (Z.div_mod n 10 ltac:(lia)) as Hdm.
    destruct (Z.eqb_spec (n / 10) 0) as [Hz|Hnz].
    + rewrite digitsValue_digitChar by exact Hmod. f_equal. lia.
    + rewrite IH.
      * rewrite digitsValue_digitChar by exact Hmod. f_equal. lia.
      * split; [apply Z.div_pos; lia|].
        apply Z.div_lt_upper_bound; [lia|].
        rewrite Nat2Z.inj_succ, Z.pow_succ_r in Hn by lia. lia.
Qed.

Lemma digitsHost_decimal n :
  0 < n -> @Number digitsHost (CouponScope.decimal n) = ofZ n.
Proof.
  intros Hn.
  assert (Hv : digitsValue 0 (CouponScope.decimal n) = Some n).
  { unfold CouponScope.decimal. destruct (Z.ltb_spec n 0) as [Hneg|_]; [lia|].
    rewrite digitsValue_digits_go; [reflexivity|].
    split; [lia|].
    pose proof (Z.log2_spec n Hn) as [_ Hlog].
    pose proof (Z.log2_nonneg n) as Hnn.
    rewrite Nat2Z.inj_succ, Z2Nat.id by exact Hnn.
    eapply Z.lt_le_trans; [exact Hlog|].
    apply Z.pow_le_mono_l. lia. }
  unfold Number, digitsHost.
  destruct (CouponScope.decimal n) as [|c r] eqn:E.
  - destruct (decimal_token n Hn) as [Hne _]. contradiction.
  - rewrite Hv. reflexivity.
Qed.

Lemma scope_ids_round_trip_witness :
  @CouponScope.parseScopeIDs digitsHost
    (@CouponScope.formatScopeInput CouponScope.noJSON (CouponScope.ScopeArray [12; 7; 305]))
  = [ofZ 12; ofZ 7; ofZ 305].
Proof.
  apply (@scope_ids_round_trip digitsHost CouponScope.noJSON [12; 7; 305]).
  - reflexivity.
  - intros n [Hn _]. apply digitsHost_decimal, Hn.
  - repeat constructor.
Defined.

(** X14. Input that holds nothing but separators (or nothing at all) yields no
    id, so that the form is rejected for want of a scope; and whatever the
    input, every id that is returned is finite and positive. *)
Theorem parseScopeIDs_rejects `{NumberHost} (raw : jsstring) :
  Number [] = ofZ 0 ->
  (forallb CouponScope.isScopeSeparator raw = true -> CouponScope.parseScopeIDs raw = [])
  /\ Forall (fun item => exists q, item = Fin q /\ (0 < q)%Q)
            (CouponScope.parseScopeIDs raw).
Proof.
  intros Hempty. split.
  - intros Hsep. unfold CouponScope.parseScopeIDs, CouponScope.splitCls.
    pose proof (split_separators _ raw false Hsep) as Hall.
    induction Hall as [|t l Ht Hl IH]; [reflexivity|].
    subst t. rewrite fmap_cons, Hempty.
    change (List.filter ?f (ofZ 0 :: ?r)) with (List.filter f r). exact IH.
  - unfold CouponScope.parseScopeIDs. apply Forall_forall. intros item Hin.
    apply list_elem_of_In, filter_In in Hin as [_ Hok].
    apply andb_prop in Hok as [Hfin Hpos].
    destruct item as [| | |q]; try discriminate.
    exists q. split; [reflexivity|].
    unfold num_ltb, ofZ in Hpos. apply negb_true_iff in Hpos.
    destruct (Qlt_le_dec 0 q) as [Hlt|Hle]; [exact Hlt|].
    apply Qle_bool_iff in Hle. unfold inject_Z in Hpos. congruence.
Qed.

Lemma parseScopeIDs_rejects_witness :
  @CouponScope.parseScopeIDs digitsHost (str " , ,  ") = [].
Proof.
  apply (proj1 (@parseScopeIDs_rejects digitsHost (str " , ,  ") eq_refl)).
  reflexivity.
Defined.

(** ** The settings page *)
Section SettingsFacts.
Import Settings.

Lemma num_ltb_irrefl n : num_ltb n n = false.
Proof.
  destruct n as [| | |q]; try reflexivity.
  simpl. apply negb_false_iff, Qle_bool_iff, Qle_refl.
Qed.

Lemma normalizeNumber_not_NaN `{NumberHost} value fallback :
  isNaN fallback = false -> isNaN (normalizeNumber value fallback) = false.
Proof.
  intros Hf. unfold normalizeNumber.
  destruct value as [| | b | n | [|c s]]; try exact Hf;
    match goal with
    | |- context [isNaN (toNumber ?v)] => destruct (isNaN (toNumber v)) eqn:E
    end; assumption.
Qed.

Lemma spliceOne_length {A} index (l : list A) :
  (length (spliceOne index l) <= length l)%nat.
Proof.
  unfold spliceOne. rewrite length_app, length_take, length_drop. lia.
Qed.

Lemma toSiteScriptItem_scriptToJSON `{Host} item :
  toSiteScriptItem (scriptToJSON item) = Some item.
Proof. destruct item as [n e [|] c]; reflexivity. Qed.

End SettingsFacts.

(** X15. [clampNumber] always answers with a number inside the bounds, whatever
    the value is (missing, blank, not a number, out of range), as long as
    the bounds are ordered and neither they nor the fallback are NaN; and
    clamping its own answer again changes nothing, so a form that was loaded
    and is saved untouched sends what it was loaded with. *)
Theorem clampNumber_in_range `{NumberHost} (value : Settings.Primitive)
    (min max fallback : JSNumber) :
  isNaN min = false -> isNaN max = false -> isNaN fallback = false ->
  num_ltb max min = false ->
  let r := Settings.clampNumber value min max fallback in
  isNaN r = false
  /\ num_ltb r min = false /\ num_ltb max r = false
  /\ Settings.clampNumber (Settings.PNumber r) min max fallback = r.
Proof.
  intros Hmin Hmax Hf Hord r.
  assert (Hr : isNaN r = false /\ num_ltb r min = false /\ num_ltb max r = false).
  { subst r. unfold Settings.clampNumber.
    pose proof (normalizeNumber_not_NaN value fallback Hf) as Hp.
    destruct (num_ltb (Settings.normalizeNumber value fallback) min) eqn:E1.
    - split; [exact Hmin|]. split; [apply num_ltb_irrefl | exact Hord].
    - destruct (num_ltb max (Settings.normalizeNumber value fallback)) eqn:E2.
      + split; [exact Hmax|]. split; [exact Hord | apply num_ltb_irrefl].
      + split; [exact Hp|]. split; assumption. }
  destruct Hr as (Hn & Hlo & Hhi). split; [exact Hn|]. split; [exact Hlo|].
  split; [exact Hhi|].
  unfold Settings.clampNumber at 1. unfold Settings.normalizeNumber, Settings.toNumber.
  rewrite Hn, Hlo, Hhi. reflexivity.
Qed.

Lemma clampNumber_in_range_witness :
  let r := @Settings.clampNumber digitsHost (Settings.PString (str "700"))
             (ofZ 1) (ofZ 500) (ofZ 5) in
  isNaN r = false
  /\ num_ltb r (ofZ 1) = false /\ num_ltb (ofZ 500) r = false
  /\ @Settings.clampNumber digitsHost (Settings.PNumber r) (ofZ 1) (ofZ 500) (ofZ 5) = r.
Proof.
  apply (@clampNumber_in_range digitsHost (Settings.PString (str "700"))
           (ofZ 1) (ofZ 500) (ofZ 5)); reflexivity.
Defined.

(** X16. The list of site scripts never holds more than twenty items: what
    [normalizeSiteScripts] loads is cut to twenty, [addSiteScriptItem] adds
    nothing to a full list, and [removeSiteScriptItem] never adds. *)
Theorem scripts_bounded `{Host} :
  (forall raw, (length (Settings.normalizeSiteScripts raw) <= 20)%nat)
  /\ (forall hint now scripts w,
        (length scripts <= 20)%nat ->
        (length (Settings.addSiteScriptItem hint now scripts w).1.1 <= 20)%nat)
  /\ (forall index scripts,
        (length (Settings.removeSiteScriptItem index scripts) <= length scripts)%nat).
Proof.
  split; [|split].
  - intros raw. unfold Settings.normalizeSiteScripts.
    destruct raw; simpl; try lia.
    rewrite length_take. unfold Settings.siteScriptsMaxCount. lia.
  - intros hint now scripts w Hle. unfold Settings.addSiteScriptItem.
    destruct (Nat.leb_spec Settings.siteScriptsMaxCount (length scripts)) as [Hfull|Hroom].
    + destruct (Notify.notifyError (Some hint) now w). simpl. exact Hle.
    + simpl. rewrite length_app. unfold Settings.siteScriptsMaxCount in Hroom.
      simpl. lia.
  - intros index scripts. apply spliceOne_length.
Qed.

Lemma scripts_bounded_witness :
  (length (@Settings.addSiteScriptItem asciiHost (str "full") 0
             (replicate 20 Settings.createSiteScriptItem)
             (Notify.initial, NoticeStore.initial)).1.1 <= 20)%nat.
Proof.
  apply (proj1 (proj2 (@scripts_bounded asciiHost))).
  rewrite length_replicate. lia.
Defined.

(** X17. At the limit, "add" leaves the list alone and reports the limit through
    [notifyError]; a second click within 1500 ms of the first does not
    produce a second toast. *)
Theorem scripts_limit_notice `{Host} (hint : jsstring) (t0 t1 : Z)
    (scripts : list Settings.SiteScriptItem) (w : Notify.Dedupe * NoticeStore.Store) :
  (20 <= length scripts)%nat -> trim hint <> [] -> t1 - t0 <= 1500 ->
  let r0 := Settings.addSiteScriptItem hint t0 scripts w in
  let r1 := Settings.addSiteScriptItem hint t1 r0.1.1 r0.1.2 in
  r0.1.1 = scripts
  /\ r0.2 = Some (Notify.notifyError (Some hint) t0 w).1
  /\ r1.1.1 = scripts
  /\ r1.2 = Some Notify.Skipped
  /\ r1.1.2.2 = r0.1.2.2.
Proof.
  intros Hfull Hhint Hwin r0 r1.
  assert (Hleb : (Settings.siteScriptsMaxCount <=? length scripts)%nat = true)
    by (apply Nat.leb_le; exact Hfull).
  set (n0 := Notify.notifyError (Some hint) t0 w).
  assert (H0 : r0 = (scripts, n0.2, Some n0.1)).
  { subst r0 n0. unfold Settings.addSiteScriptItem. rewrite Hleb.
    destruct (Notify.notifyError (Some hint) t0 w). reflexivity. }
  assert (Hd1 : (n0.2).1 = {| Notify.lastMessage := trim hint;
                              Notify.lastNormalized := Notify.simplifyMessage hint;
                              Notify.lastType := Some error; Notify.lastAt := t0 |}).
  { subst n0. destruct w as [d store]. unfold Notify.notifyError.
    rewrite pushNotice_unfold by exact Hhint.
    rewrite <- (shouldSkip_state error hint t0 d Hhint).
    destruct ((Notify.shouldSkip error hint t0 d).1); reflexivity. }
  assert (H1 : r1 = (scripts, ((Notify.shouldSkip error hint t1 (n0.2).1).2, (n0.2).2),
                     Some Notify.Skipped)).
  { subst r1. rewrite H0. cbn [fst snd].
    unfold Settings.addSiteScriptItem. rewrite Hleb.
    destruct (n0.2) as [d1 s1]. cbn [fst snd] in *.
    unfold Notify.notifyError. rewrite pushNotice_unfold by exact Hhint.
    rewrite (shouldSkip_exact error hint t1 d1 Hhint); [reflexivity| | |];
      rewrite Hd1; simpl; auto. }
  rewrite H1, H0. cbn [fst snd]. repeat split; reflexivity.
Qed.

Lemma scripts_limit_notice_witness :
  let scripts := replicate 20 Settings.createSiteScriptItem in
  let r0 := @Settings.addSiteScriptItem asciiHost (str "At most 20 scripts") 0 scripts
              (Notify.initial, NoticeStore.initial) in
  let r1 := @Settings.addSiteScriptItem asciiHost (str "At most 20 scripts") 900
              r0.1.1 r0.1.2 in
  r0.2 = Some (Notify.Shown (Some 1)) /\ r1.2 = Some Notify.Skipped.
Proof.
  intros scripts r0 r1.
  destruct (@scripts_limit_notice asciiHost (str "At most 20 scripts") 0 900 scripts
              (Notify.initial, NoticeStore.initial))
    as (_ & H0 & _ & H1 & _).
  - unfold scripts. rewrite length_replicate. lia.
  - vm_compute. discriminate.
  - lia.
  - split; [exact H0 | exact H1].
Defined.

(** X18. What the page saves it loads again: the script items it sends are read
    back unchanged by [normalizeSiteScripts], the first twenty of them. *)
Theorem scripts_round_trip `{Host} (items : list Settings.SiteScriptItem) :
  Settings.normalizeSiteScripts (Settings.VArray (Settings.scriptToJSON <$> items))
  = take 20 items.
Proof.
  unfold Settings.normalizeSiteScripts. f_equal.
  induction items as [|item items IH]; [reflexivity|].
  rewrite fmap_cons.
  change (omap Settings.toSiteScriptItem
            (Settings.scriptToJSON item :: (Settings.scriptToJSON <$> items)))
    with (match Settings.toSiteScriptItem (Settings.scriptToJSON item) with
          | Some y => y :: omap Settings.toSiteScriptItem (Settings.scriptToJSON <$> items)
          | None => omap Settings.toSiteScriptItem (Settings.scriptToJSON <$> items)
          end).
  rewrite toSiteScriptItem_scriptToJSON, IH. reflexivity.
Qed.

(** ** The users page *)

(** X19. The header checkbox flips: on a page that lists users, [toggleSelectAll]
    turns "all selected" into "not all selected" and back; it selects only
    ids of the rows on the page, and all of them or none. *)
Theorem toggleSelectAll_flips (users : list Users.User) (selectedIds : list Z) :
  users <> [] ->
  Users.allSelected users (Users.toggleSelectAll users selectedIds)
    = negb (Users.allSelected users selectedIds)
  /\ (Users.toggleSelectAll users selectedIds = []
      \/ Users.toggleSelectAll users selectedIds = Users.id <$> users).
Proof.
  intros Hne. unfold Users.toggleSelectAll.
  destruct (Users.allSelected users selectedIds) eqn:E.
  - split; [|left; reflexivity]. unfold Users.allSelected.
    destruct users as [|u users]; [contradiction|]. reflexivity.
  - split; [|right; reflexivity]. unfold Users.allSelected.
    destruct users as [|u users]; [contradiction|].
    change (length (u :: users) =? 0)%nat with false. cbv iota.
    apply forallb_forall. intros x Hx. apply existsb_exists.
    exists (Users.id x). split; [|apply Z.eqb_refl].
    apply in_map_iff. exists x. split; [reflexivity | exact Hx].
Qed.

Lemma toggleSelectAll_flips_witness :
  let users := [{| Users.id := 4; Users.email := str "a@x" |};
                {| Users.id := 9; Users.email := str "b@x" |}] in
  Users.allSelected users (Users.toggleSelectAll users [9])
    = negb (Users.allSelected users [9])
  /\ (Users.toggleSelectAll users [9] = []
      \/ Users.toggleSelectAll users [9] = Users.id <$> users).
Proof.
  intros users. apply (toggleSelectAll_flips users [9]). discriminate.
Defined.

(** ** The layout *)
Section ThemeFacts.
Import AdminLayout.

Lemma classAdd_elem c x l : x ∈ classAdd c l <-> x = c \/ x ∈ l.
Proof.
  unfold classAdd. destruct (existsb (str_eqb c) l) eqn:E.
  - split; [auto|]. intros [->|Hx]; [|exact Hx].
    apply existsb_exists in E as (y & Hy & Heq).
    apply bool_decide_eq_true in Heq. subst y. apply list_elem_of_In, Hy.
  - rewrite elem_of_app, list_elem_of_singleton. tauto.
Qed.

Lemma classRemove_elem c x l : x ∈ classRemove c l <-> x <> c /\ x ∈ l.
Proof.
  unfold classRemove. rewrite list_elem_of_In, filter_In, <- list_elem_of_In.
  rewrite negb_true_iff. unfold str_eqb. rewrite bool_decide_eq_false.
  split; intros [H1 H2]; split; auto.
Qed.

Lemma applyTheme_dark_class theme st :
  str "dark" ∈ classList (applyTheme theme st) <-> theme = dark.
Proof.
  destruct theme; simpl.
  - rewrite classRemove_elem. split; [intros [Hne _]; contradiction | discriminate].
  - rewrite classAdd_elem. split; [reflexivity | left; reflexivity].
Qed.

End ThemeFacts.

(** X20. After [applyTheme] the three places that hold the theme agree: the ref,
    the [dark] class of the root element and [localStorage]; the other
    classes of the root element are untouched. [toggleTheme] switches the
    theme, and twice in a row it brings the first theme back. *)
Theorem theme_consistent (theme : AdminLayout.Theme) (st : AdminLayout.Layout) :
  let st' := AdminLayout.applyTheme theme st in
  (AdminLayout.isDark st' = true <-> theme = AdminLayout.dark)
  /\ (str "dark" ∈ AdminLayout.classList st' <-> theme = AdminLayout.dark)
  /\ AdminLayout.localStorage st' !! str "admin_theme"
     = Some (AdminLayout.themeName theme)
  /\ (forall c, c <> str "dark" ->
        (c ∈ AdminLayout.classList st' <-> c ∈ AdminLayout.classList st))
  /\ AdminLayout.isDark (AdminLayout.toggleTheme st') = negb (AdminLayout.isDark st')
  /\ AdminLayout.isDark (AdminLayout.toggleTheme (AdminLayout.toggleTheme st'))
     = AdminLayout.isDark st'
  /\ AdminLayout.localStorage (AdminLayout.toggleTheme (AdminLayout.toggleTheme st'))
       !! str "admin_theme"
     = Some (AdminLayout.themeName theme).
Proof.
  intros st'. subst st'. destruct theme; simpl.
  - split; [split; discriminate|]. split.
    { rewrite classRemove_elem. split; [intros [Hne _]; contradiction | discriminate]. }
    split; [apply lookup_insert_eq|]. split.
    { intros c Hc. rewrite classRemove_elem. tauto. }
    split; [reflexivity|]. split; [reflexivity|]. apply lookup_insert_eq.
  - split; [split; reflexivity|]. split.
    { rewrite classAdd_elem. split; [reflexivity | left; reflexivity]. }
    split; [apply lookup_insert_eq|]. split.
    { intros c Hc. rewrite classAdd_elem. tauto. }
    split; [reflexivity|]. split; [reflexivity|]. apply lookup_insert_eq.
Qed.

(** X21. The choice survives a reload: when [localStorage] holds what
    [applyTheme] and [applyLocale] wrote, [onMounted] restores that theme,
    whatever the system prefers and whatever the fresh page starts with, and
    that locale when it is not empty. *)
Theorem theme_restored (theme : AdminLayout.Theme) (value : jsstring)
    (prefersDark : bool) (previous fresh : AdminLayout.Layout) :
  value <> [] ->
  AdminLayout.localStorage fresh
    = AdminLayout.localStorage
        (AdminLayout.applyLocale value (AdminLayout.applyTheme theme previous)) ->
  let st := AdminLayout.onMounted prefersDark fresh in
  (AdminLayout.isDark st = true <-> theme = AdminLayout.dark)
  /\ (str "dark" ∈ AdminLayout.classList st <-> theme = AdminLayout.dark)
  /\ AdminLayout.locale st = value
  /\ AdminLayout.localStorage st = AdminLayout.localStorage fresh.
Proof.
  intros Hv Hls st.
  assert (Ht : AdminLayout.localStorage fresh !! str "admin_theme"
               = Some (AdminLayout.themeName theme)).
  { rewrite Hls. simpl. rewrite lookup_insert_ne by discriminate.
    apply lookup_insert_eq. }
  assert (Hl : AdminLayout.localStorage fresh !! str "admin_locale" = Some value).
  { rewrite Hls. simpl. apply lookup_insert_eq. }
  assert (Hstep : AdminLayout.onMounted prefersDark fresh
                  = AdminLayout.applyLocale value (AdminLayout.applyTheme theme fresh)).
  { unfold AdminLayout.onMounted. cbv zeta. rewrite Ht.
    assert (Hl' : AdminLayout.localStorage (AdminLayout.applyTheme theme fresh)
                    !! str "admin_locale" = Some value).
    { simpl. rewrite lookup_insert_ne by discriminate. exact Hl. }
    apply truthy_nonempty in Hv.
    destruct theme; cbv beta iota delta [AdminLayout.themeName];
      [change (str_eqb (str "light") (str "light")) with true
      |change (str_eqb (str "dark") (str "light")) with false;
       change (str_eqb (str "dark") (str "dark")) with true];
      cbv beta iota; rewrite Hl', Hv; reflexivity. }
  subst st. rewrite Hstep.
  split; [destruct theme; simpl; split; (reflexivity || discriminate)|].
  split; [apply applyTheme_dark_class|]. split; [reflexivity|].
  simpl. rewrite insert_id.
  - apply insert_id, Ht.
  - rewrite lookup_insert_ne by discriminate. exact Hl.
Qed.

Lemma theme_restored_witness :
  let previous := {| AdminLayout.isDark := false; AdminLayout.classList := [str "app"];
                     AdminLayout.localStorage := ∅; AdminLayout.locale := str "zh-CN" |} in
  let saved := AdminLayout.applyLocale (str "en-US")
                 (AdminLayout.applyTheme AdminLayout.dark previous) in
  let fresh := {| AdminLayout.isDark := false; AdminLayout.classList := [];
                  AdminLayout.localStorage := AdminLayout.localStorage saved;
                  AdminLayout.locale := str "zh-CN" |} in
  let st := AdminLayout.onMounted false fresh in
  (AdminLayout.isDark st = true <-> AdminLayout.dark = AdminLayout.dark)
  /\ (str "dark" ∈ AdminLayout.classList st <-> AdminLayout.dark = AdminLayout.dark)
  /\ AdminLayout.locale st = str "en-US"
  /\ AdminLayout.localStorage st = AdminLayout.localStorage fresh.
Proof.
  intros previous saved fresh.
  apply (theme_restored AdminLayout.dark (str "en-US") false previous fresh).
  - discriminate.
  - reflexivity.
Defined.

(** ** The normalizer: a failure prefix does not count *)
Section PrefixIgnored.

Lemma dropWhile_nil_iff p s : dropWhile p s = [] <-> forallb p s = true.
Proof.
  induction s as [|c s IH]; simpl; [tauto|].
  destruct (p c); simpl; [exact IH|]. split; discriminate.
Qed.

Lemma dropWhile_app_l p a b :
  forallb p a = true -> dropWhile p (a ++ b) = dropWhile p b.
Proof.
  induction a as [|c a IH]; simpl; [reflexivity|].
  intros Ha. apply andb_prop in Ha as [Hc Ha]. rewrite Hc. apply IH, Ha.
Qed.

Lemma dropWhile_app_r p a b :
  dropWhile p a <> [] -> dropWhile p (a ++ b) = dropWhile p a ++ b.
Proof.
  induction a as [|c a IH]; simpl; [contradiction|].
  destruct (p c); [exact IH | reflexivity].
Qed.

Lemma dropWhile_split p s :
  exists a, forallb p a = true /\ s = a ++ dropWhile p s.
Proof.
  induction s as [|c s (a & Ha & Hs)]; simpl.
  - exists []. split; reflexivity.
  - destruct (p c) eqn:Hc.
    + exists (c :: a). simpl. rewrite Hc, Ha. split; [reflexivity|]. f_equal. exact Hs.
    + exists []. split; reflexivity.
Qed.

Lemma trimEnd_app a y : trimEnd y <> [] -> trimEnd (a ++ y) = a ++ trimEnd y.
Proof.
  unfold trimEnd. intros Hy. rewrite rev_app_distr, dropWhile_app_r.
  - rewrite rev_app_distr, rev_involutive. reflexivity.
  - intros Hnil. apply Hy. rewrite Hnil. reflexivity.
Qed.

(** Trimming the end first and the start second gives the same string. *)
Lemma trimEnd_then_start x :
  trim x <> [] ->
  trimEnd x <> [] /\ trimStart (trimEnd x) = trim x.
Proof.
  intros Hx. destruct (dropWhile_split isSpace x) as (a & Ha & Hsplit).
  assert (He : trimEnd x = a ++ trim x).
  { rewrite Hsplit at 1. apply trimEnd_app. exact Hx. }
  rewrite He. split.
  - intros Hnil. apply app_eq_nil in Hnil as [_ Hnil]. contradiction.
  - unfold trimStart at 1. rewrite dropWhile_app_l by exact Ha. apply trimStart_trim.
Qed.

Lemma afterWord_app w w' r :
  afterWord w w' = Some [] -> afterWord w (w' ++ r) = Some r.
Proof.
  revert w'. induction w as [|c w IH]; intros w' Hw.
  - simpl in Hw. injection Hw as ->. reflexivity.
  - destruct w' as [|x w']; [discriminate|]. simpl in *.
    destruct (canonicalize c =? canonicalize x)%N; [apply IH, Hw | discriminate].
Qed.

(** A word that is read off the start of [v] agrees with that start up to
    case. *)
Lemma afterWord_canonical w v r :
  afterWord w v = Some r ->
  canonicalize <$> w = take (length w) (canonicalize <$> v).
Proof.
  revert v. induction w as [|c w IH]; intros v Hw; [reflexivity|].
  destruct v as [|x v]; [discriminate|]. simpl in Hw.
  destruct (N.eqb_spec (canonicalize c) (canonicalize x)) as [Heq|]; [|discriminate].
  rewrite !fmap_cons. simpl. rewrite Heq. f_equal. apply IH, Hw.
Qed.

Lemma afterWord_sameStart w0 w v r0 r :
  afterWord w0 v = Some r0 -> afterWord w v = Some r -> sameStart w0 w = true.
Proof.
  intros H0 Hw. unfold sameStart, str_eqb. apply bool_decide_eq_true.
  rewrite (afterWord_canonical _ _ _ H0), (afterWord_canonical _ _ _ Hw).
  rewrite !take_take. f_equal; lia.
Qed.

(** No failure word starts like another one. *)
Lemma failureWords_distinct w0 w :
  w0 ∈ failureWords -> w ∈ failureWords -> sameStart w0 w = true -> w0 = w.
Proof.
  intros H0 Hw Hs.
  assert (Hall : forallb (fun a => forallb (fun b =>
                   implb (sameStart a b) (str_eqb a b)) failureWords) failureWords = true)
    by (vm_compute; reflexivity).
  rewrite forallb_forall in Hall. apply list_elem_of_In in H0, Hw.
  specialize (Hall w0 H0). rewrite forallb_forall in Hall. specialize (Hall w Hw).
  rewrite Hs in Hall. simpl in Hall. apply bool_decide_eq_true in Hall. exact Hall.
Qed.

Lemma firstSome_only {A B} (f : A -> option B) (l : list A) (a : A) (b : B) :
  a ∈ l -> f a = Some b -> (forall x, x ∈ l -> f x <> None -> x = a) ->
  firstSome f l = Some b.
Proof.
  induction l as [|x l IH]; intros Ha Hf Hu.
  - apply elem_of_nil in Ha. contradiction.
  - simpl. destruct (f x) as [y|] eqn:E.
    + assert (x = a) by (apply Hu; [left | congruence]). subst x. congruence.
    + apply IH; [|exact Hf|intros z Hz; apply Hu; right; exact Hz].
      apply elem_of_cons in Ha as [->|Ha]; [congruence | exact Ha].
Qed.

Lemma space_fixed_by_canonicalize x : isSpace x = true -> canonicalize x = x.
Proof.
  intros Hs. unfold canonicalize.
  destruct ((0x61 <=? x) && (x <=? 0x7A))%N eqn:E; [|reflexivity].
  exfalso. unfold isSpace in Hs. split_bools; lia.
Qed.

Lemma failureWords_head w :
  w ∈ failureWords -> exists c t, w = c :: t /\ isSpace (canonicalize c) = false.
Proof.
  intros Hw.
  assert (Hall : forallb (fun a => match a with
                                   | c :: _ => negb (isSpace (canonicalize c))
                                   | [] => false
                                   end) failureWords = true)
    by (vm_compute; reflexivity).
  rewrite forallb_forall in Hall. apply list_elem_of_In in Hw.
  specialize (Hall w Hw). destruct w as [|c t]; [discriminate|].
  exists c, t. split; [reflexivity|]. apply negb_true_iff, Hall.
Qed.

End PrefixIgnored.

(** X22. A failure prefix does not count: a message that starts with one of the
    failure words (in any ASCII case), optional white space, a colon or dash
    and optional white space has the normalized form of what follows,
    provided that what follows is not blank and has no such prefix of its
    own. *)
Theorem failure_prefix_ignored `{Host} (w w' sp1 sp2 x : jsstring) (sep : N) :
  w ∈ failureWords -> afterWord w w' = Some [] ->
  forallb isSpace sp1 = true -> forallb isSpace sp2 = true ->
  isSeparator sep = true ->
  trim x <> [] -> stripFailurePrefix (trim x) = trim x ->
  Notify.simplifyMessage (w' ++ sp1 ++ [sep] ++ sp2 ++ x) = Notify.simplifyMessage x.
Proof.
  intros Hw Hw' Hsp1 Hsp2 Hsep Hx Hplain.
  destruct (trimEnd_then_start x Hx) as [Hend Hcomm].
  destruct (failureWords_head w Hw) as (c & t & -> & Hc).
  destruct w' as [|c' t']; [discriminate|].
  assert (Hc' : isSpace c' = false).
  { apply not_true_is_false. intros Hs.
    simpl in Hw'. destruct (N.eqb_spec (canonicalize c) (canonicalize c')) as [Heq|];
      [|discriminate].
    rewrite (space_fixed_by_canonicalize c' Hs) in Heq. congruence. }
  assert (Hsepsp : isSpace sep = false).
  { apply not_true_is_false. intros Hs.
    rewrite (space_not_separator sep Hs) in Hsep. discriminate. }
  remember ((c' :: t') ++ sp1 ++ [sep] ++ sp2 ++ trimEnd x) as v eqn:Hv.
  assert (Htrim : trim ((c' :: t') ++ sp1 ++ [sep] ++ sp2 ++ x) = v).
  { unfold trim.
    replace (trimStart ((c' :: t') ++ sp1 ++ [sep] ++ sp2 ++ x))
      with (((c' :: t') ++ sp1 ++ [sep] ++ sp2) ++ x).
    - rewrite trimEnd_app by exact Hend. rewrite Hv, <- !app_assoc. reflexivity.
    - rewrite <- !app_assoc. symmetry. apply dropWhile_stable. exact Hc'. }
  assert (Hstrip : stripFailurePrefix v = trim x).
  { unfold stripFailurePrefix.
    assert (Hmine : afterWord (c :: t) v ≫= afterSeparator = Some (trim x)).
    { rewrite Hv, (afterWord_app _ _ _ Hw'). simpl mbind. unfold afterSeparator.
      rewrite dropWhile_app_l by exact Hsp1.
      change ([sep] ++ sp2 ++ trimEnd x) with (sep :: sp2 ++ trimEnd x).
      cbn [dropWhile]. rewrite Hsepsp, Hsep.
      rewrite dropWhile_app_l by exact Hsp2. f_equal. exact Hcomm. }
    rewrite (firstSome_only _ failureWords (c :: t) (trim x) Hw Hmine); [reflexivity|].
    intros w0 Hw0 Hsome.
    destruct (afterWord w0 v) as [r0|] eqn:E0; [|contradiction].
    apply (failureWords_distinct w0 (c :: t) Hw0 Hw).
    eapply afterWord_sameStart; [exact E0 | rewrite Hv; apply afterWord_app, Hw']. }
  rewrite !simplifyMessage_spec. unfold simplifySpec. rewrite Htrim.
  destruct v as [|v0 v']; [discriminate|]. rewrite Hstrip.
  destruct (trim x) as [|y u] eqn:E; [contradiction|].
  rewrite Hplain. reflexivity.
Qed.

Lemma failure_prefix_ignored_witness :
  @Notify.simplifyMessage asciiHost
    (str "REQUEST Failed" ++ str " " ++ [0xFF1A%N] ++ str "  " ++ str "Disk is full. ")
  = @Notify.simplifyMessage asciiHost (str "Disk is full. ").
Proof.
  apply (@failure_prefix_ignored asciiHost (str "request failed") (str "REQUEST Failed")
           (str " ") (str "  ") (str "Disk is full. ") 0xFF1A%N).
  - vm_compute. repeat (first [left | right]).
  - reflexivity.
  - reflexivity.
  - reflexivity.
  - reflexivity.
  - vm_compute. discriminate.
  - reflexivity.
Defined.

(** ** The orders page *)
Section OrderFacts.
Import Orders.

Lemma cleaned_trim s : cleaned s = trim s.
Proof. unfold cleaned. destruct s; reflexivity. Qed.

Lemma has_items_positive {A} (l : list A) : (0 <? length l)%nat = negb (length l =? 0)%nat.
Proof. destruct l; reflexivity. Qed.

End OrderFacts.

(** X23. The fulfillment form counts as empty exactly when its payload, its note
    and every key and value of its rows are blank; and the delivery data
    that is sent holds the rows trimmed, in their order, without the rows
    that are blank on both sides. *)
Theorem delivery_payload_blank (form : Orders.FulfillmentForm) :
  (Orders.hasFulfillmentSubmitData form = false
   <-> trim (Orders.payload form) = [] /\ trim (Orders.note form) = []
       /\ Forall (fun e => trim (Orders.key e) = [] /\ trim (Orders.value e) = [])
                 (Orders.entries form))
  /\ (forall l, Orders.data_entries (Orders.buildDeliveryDataPayload form) = Some l ->
        l <> []
        /\ l = List.filter (fun e => truthy (Orders.key e) || truthy (Orders.value e))
                 (List.map (fun e => {| Orders.key := trim (Orders.key e);
                                        Orders.value := trim (Orders.value e) |})
                    (Orders.entries form))
        /\ Forall (fun e => trim (Orders.key e) = Orders.key e
                            /\ trim (Orders.value e) = Orders.value e
                            /\ (Orders.key e <> [] \/ Orders.value e <> [])) l).
Proof.
  assert (Hmap : List.map (fun item => {| Orders.key := Orders.cleaned (Orders.key item);
                                          Orders.value := Orders.cleaned (Orders.value item) |})
                   (Orders.entries form)
                 = List.map (fun e => {| Orders.key := trim (Orders.key e);
                                         Orders.value := trim (Orders.value e) |})
                     (Orders.entries form)).
  { apply map_ext. intros e. rewrite !cleaned_trim. reflexivity. }
  split.
  - unfold Orders.hasFulfillmentSubmitData, Orders.buildDeliveryDataPayload.
    cbv zeta. simpl Orders.data_note. simpl Orders.data_entries.
    rewrite Hmap, !cleaned_trim.
    set (rows := List.filter _ _).
    assert (Hrows : rows = []
                    <-> Forall (fun e => trim (Orders.key e) = [] /\ trim (Orders.value e) = [])
                          (Orders.entries form)).
    { subst rows. clear Hmap. induction (Orders.entries form) as [|e l IH]; simpl.
      - split; [constructor | reflexivity].
      - rewrite Forall_cons.
        destruct (trim (Orders.key e)) as [|c k]; simpl;
          [destruct (trim (Orders.value e)) as [|c v]; simpl|].
        + rewrite IH.
          split; [intros Hf; split; [split; reflexivity | exact Hf]
                 | intros [_ Hf]; exact Hf].
        + split; [discriminate | intros [[_ Hv] _]; discriminate].
        + split; [discriminate | intros [[Hk _] _]; discriminate]. }
    destruct (trim (Orders.payload form)) as [|c p]; simpl.
    + destruct (trim (Orders.note form)) as [|c n]; simpl.
      * destruct rows as [|r rows']; simpl.
        -- split; [intros _; repeat split; apply Hrows; reflexivity | reflexivity].
        -- split; [discriminate|]. intros (_ & _ & Hall).
           apply Hrows in Hall. discriminate.
      * split; [discriminate | intros (_ & Hn & _); discriminate].
    + split; [discriminate | intros (Hp & _); discriminate].
  - intros l Hl. unfold Orders.buildDeliveryDataPayload in Hl. simpl in Hl.
    rewrite Hmap in Hl.
    set (rows := List.filter _ _) in *.
    destruct rows as [|r rows'] eqn:E; simpl in Hl; [discriminate|].
    injection Hl as <-. split; [discriminate|]. split; [reflexivity|].
    rewrite <- E. subst rows. apply Forall_forall. intros e He.
    apply list_elem_of_In, filter_In in He as [Hin Hne].
    apply in_map_iff in Hin as (e0 & <- & _). simpl in *.
    split; [apply trim_idem|]. split; [apply trim_idem|].
    apply orb_prop in Hne as [Hk|Hv]; [left | right]; apply truthy_nonempty; assumption.
Qed.

Lemma delivery_payload_blank_witness :
  Orders.hasFulfillmentSubmitData
    {| Orders.payload := str "  "; Orders.note := [];
       Orders.entries := [{| Orders.key := str " "; Orders.value := [] |}] |} = false.
Proof.
  apply (proj1 (delivery_payload_blank _)). simpl.
  repeat split. repeat constructor.
Defined.

(** X24. A child fulfillment is offered exactly when a fulfillment is and the
    order lists at least one item; then every item is manual, the order has
    no fulfillment yet and its status is [paid] or [fulfilling]. *)
Theorem child_fulfillment_guard (order : option Orders.Order) :
  (Orders.canCreateChildFulfillment order = true
   <-> Orders.canCreateFulfillment order = true
       /\ exists o l, order = Some o /\ Orders.items o = Some l /\ l <> [])
  /\ (forall o, Orders.canCreateFulfillment (Some o) = true ->
        Orders.fulfillment o = false
        /\ (Orders.status o = str "paid" \/ Orders.status o = str "fulfilling")
        /\ (forall l, Orders.items o = Some l -> forallb Orders.isManual l = true)).
Proof.
  assert (Hguard : forall o, Orders.canCreateFulfillment (Some o) = true ->
            Orders.fulfillment o = false
            /\ (Orders.status o = str "paid" \/ Orders.status o = str "fulfilling")
            /\ (forall l, Orders.items o = Some l -> forallb Orders.isManual l = true)).
  { intros o Hc. unfold Orders.canCreateFulfillment in Hc.
    destruct (Orders.fulfillment o); [discriminate|].
    destruct (match Orders.parent_id o, Orders.children o with
              | None, Some n => (0 <? n)%nat | _, _ => false end); [discriminate|].
    split; [reflexivity|].
    destruct (Orders.items o) as [l|] eqn:Hi.
    - destruct ((0 <? length l)%nat && negb (forallb Orders.isManual l)) eqn:E;
        [discriminate|].
      split.
      + apply orb_prop in Hc as [Hc|Hc]; apply bool_decide_eq_true in Hc; auto.
      + intros l' [= <-]. destruct l as [|i l]; [reflexivity|].
        simpl in E. apply negb_false_iff in E. exact E.
    - split; [|discriminate].
      apply orb_prop in Hc as [Hc|Hc]; apply bool_decide_eq_true in Hc; auto. }
  split; [|exact Hguard].
  unfold Orders.canCreateChildFulfillment.
  destruct (Orders.canCreateFulfillment order) eqn:Hc; simpl.
  - destruct order as [o|]; [|discriminate].
    destruct (Hguard o Hc) as (_ & _ & Hman).
    destruct (Orders.items o) as [l|] eqn:Hi.
    + destruct l as [|i l]; simpl.
      * split; [discriminate|]. intros (_ & o' & l' & [= <-] & Hl & Hne).
        rewrite Hi in Hl. injection Hl as <-. contradiction.
      * split; [|intros _; apply (Hman (i :: l) eq_refl)].
        intros _. split; [reflexivity|]. exists o, (i :: l).
        split; [reflexivity|]. split; [exact Hi | discriminate].
    + split; [discriminate|]. intros (_ & o' & l' & [= <-] & Hl & _).
      rewrite Hi in Hl. discriminate.
  - split; [discriminate | intros [Hf _]; discriminate].
Qed.

Lemma child_fulfillment_guard_witness :
  let o := {| Orders.status := str "paid"; Orders.fulfillment := false;
              Orders.parent_id := Some 7; Orders.children := None;
              Orders.items := Some [{| Orders.fulfillment_type := str "manual" |}] |} in
  Orders.fulfillment o = false
  /\ (Orders.status o = str "paid" \/ Orders.status o = str "fulfilling")
  /\ (forall l, Orders.items o = Some l -> forallb Orders.isManual l = true).
Proof.
  intros o. apply (proj2 (child_fulfillment_guard (Some o)) o). reflexivity.
Defined.

(** ** The login log *)

(** X25. The label of a failure reason is never the raw translation key: a blank
    reason shows a dash, a reason without a translation shows itself
    trimmed, any other the translation. *)
Theorem failReasonLabel_never_key `{Translator} (reason : option jsstring) :
  let normalized :=
    trim (match reason with Some r => r | None => [] end) in
  LoginLogs.failReasonLabel reason <> LoginLogs.failReasonPrefix ++ normalized
  /\ (normalized = [] -> LoginLogs.failReasonLabel reason = str "-")
  /\ (normalized <> [] ->
      LoginLogs.failReasonLabel reason
      = if str_eqb (translate (LoginLogs.failReasonPrefix ++ normalized))
                   (LoginLogs.failReasonPrefix ++ normalized)
        then normalized
        else translate (LoginLogs.failReasonPrefix ++ normalized)).
Proof.
  intros normalized.
  assert (Hn : trim (match reason with
                     | Some r => if truthy r then r else []
                     | None => []
                     end) = normalized).
  { subst normalized. destruct reason as [[|c r]|]; reflexivity. }
  unfold LoginLogs.failReasonLabel. rewrite Hn.
  destruct normalized as [|c n] eqn:E; simpl negb; cbv iota.
  - split; [discriminate|]. split; [reflexivity | contradiction].
  - split; [|split; [discriminate | reflexivity]].
    unfold str_eqb.
    destruct (bool_decide_reflect
                (translate (LoginLogs.failReasonPrefix ++ c :: n)
                 = LoginLogs.failReasonPrefix ++ c :: n)) as [_|Hne]; [|exact Hne].
    intros Heq. apply (f_equal length) in Heq. rewrite length_app in Heq.
    unfold LoginLogs.failReasonPrefix in Heq. simpl in Heq. lia.
Qed.

Lemma failReasonLabel_never_key_witness :
  @LoginLogs.failReasonLabel LoginLogs.noTranslations (Some (str " user_disabled "))
    = str "user_disabled"
  /\ @LoginLogs.failReasonLabel LoginLogs.noTranslations (Some (str "  ")) = str "-".
Proof.
  split.
  - rewrite (proj2 (proj2 (@failReasonLabel_never_key LoginLogs.noTranslations
                             (Some (str " user_disabled "))))).
    + reflexivity.
    + vm_compute. discriminate.
  - apply (proj1 (proj2 (@failReasonLabel_never_key LoginLogs.noTranslations
                           (Some (str "  "))))).
    reflexivity.
Defined.

Lemma theme_consistent_witness :
  let st := {| AdminLayout.isDark := false;
               AdminLayout.classList := [str "app"; str "dark"];
               AdminLayout.localStorage := ∅; AdminLayout.locale := str "zh-CN" |} in
  str "app" ∈ AdminLayout.classList (AdminLayout.applyTheme AdminLayout.light st)
  <-> str "app" ∈ AdminLayout.classList st.
Proof.
  intros st.
  destruct (theme_consistent AdminLayout.light st) as (_ & _ & _ & Hother & _).
  apply Hother. discriminate.
Defined.
